(** * CustomerInfoDatabase.py: the customer form and its SQLite store

    A shallow embedding of [CustomerApp]: the text fields and the selection
    of the form, the [customers] table behind it, the e-mail check done with
    [re.match], and the two methods that talk to SQLite, [setup_database]
    and [submit_data], with their [try]/[except]/[finally] blocks. *)

From Stdlib Require Import List NArith ZArith Bool String Ascii Lia Btauto.
Import ListNotations.

Set Implicit Arguments.
Open Scope string_scope.
Open Scope list_scope.

(** ** Python strings *)

(** A [str] is a sequence of Unicode code points. *)
Definition char := N.
Definition str := list char.

Definition ord (a : ascii) : char := N_of_ascii a.

(** A literal of the source, written as a Rocq string of ASCII characters. *)
Definition py (s : string) : str := map ord (list_ascii_of_string s).

(** [str.isspace] on one character, the table [str.strip] works with
    when it is called without an argument. *)
Definition isspace (c : char) : bool :=
  ((0x09 <=? c) && (c <=? 0x0D) || (0x1C <=? c) && (c <=? 0x20)
   || (c =? 0x85) || (c =? 0xA0) || (c =? 0x1680)
   || (0x2000 <=? c) && (c <=? 0x200A)
   || (c =? 0x2028) || (c =? 0x2029) || (c =? 0x202F) || (c =? 0x205F)
   || (c =? 0x3000))%N.

Fixpoint lstrip (s : str) : str :=
  match s with
  | c :: s' => if isspace c then lstrip s' else s
  | [] => []
  end.

Definition rstrip (s : str) : str := rev (lstrip (rev s)).

(** [s.strip()] *)
Definition strip (s : str) : str := rstrip (lstrip s).

(** No whitespace at either end. *)
Definition is_stripped (s : str) : bool :=
  match s with c :: _ => negb (isspace c) | [] => true end
  && match rev s with c :: _ => negb (isspace c) | [] => true end.

(** ** The regular expression of [is_valid_email]

    [re.match] compiles the pattern to a sequence of operations and runs a
    backtracking matcher over it from position 0.  The operations below are
    the ones [sre_parse] produces for the pattern of the source. *)

Inductive set_item : Type :=
| IN_LITERAL (c : char)
| IN_RANGE (lo hi : char).

Inductive op : Type :=
| AT_BEGINNING                                  (* ^ *)
| AT_END                                        (* $ *)
| LITERAL (c : char)
| MAX_REPEAT (lo : nat) (set : list set_item).  (* [set]{lo,}, greedy *)

Definition in_item (c : char) (i : set_item) : bool :=
  match i with
  | IN_LITERAL x => (c =? x)%N
  | IN_RANGE lo hi => ((lo <=? c) && (c <=? hi))%N
  end.

Definition in_set (set : list set_item) (c : char) : bool :=
  existsb (in_item c) set.

(** [$] without MULTILINE: the end of the string, or just before a newline
    that is the last character. *)
Definition at_end (s : str) : bool :=
  match s with
  | [] => true
  | [c] => (c =? 10)%N
  | _ => false
  end.

(** Greedy repetition of a character set: take one more character when
    possible, and fall back to the continuation [k] once [lo] were taken. *)
Fixpoint repeat_in (set : list set_item) (k : nat -> str -> bool)
    (lo pos : nat) (s : str) {struct s} : bool :=
  match s with
  | c :: s' => in_set set c && repeat_in set k (pred lo) (S pos) s'
  | [] => false
  end
  || (Nat.eqb lo 0 && k pos s).

Fixpoint sre_match (ops : list op) (pos : nat) (s : str) {struct ops} : bool :=
  match ops with
  | [] => true
  | AT_BEGINNING :: ops' => Nat.eqb pos 0 && sre_match ops' pos s
  | AT_END :: ops' => at_end s && sre_match ops' pos s
  | LITERAL c :: ops' =>
      match s with
      | x :: s' => (x =? c)%N && sre_match ops' (S pos) s'
      | [] => false
      end
  | MAX_REPEAT lo set :: ops' => repeat_in set (sre_match ops') lo pos s
  end.

(** [re.match(pattern, string)]: a match object or [None]; only its truth
    value is used by the program, and a match object is always true. *)
Definition re_match (pattern : list op) (string : str) : bool :=
  sre_match pattern 0 string.

Definition a_z := IN_RANGE (ord "a") (ord "z").
Definition A_Z := IN_RANGE (ord "A") (ord "Z").
Definition d0_9 := IN_RANGE (ord "0") (ord "9").

(** [[a-zA-Z0-9_.+-]] *)
Definition local_set : list set_item :=
  [a_z; A_Z; d0_9; IN_LITERAL (ord "_"); IN_LITERAL (ord ".");
   IN_LITERAL (ord "+"); IN_LITERAL (ord "-")].

(** [[a-zA-Z0-9-]] *)
Definition host_set : list set_item :=
  [a_z; A_Z; d0_9; IN_LITERAL (ord "-")].

(** [[a-zA-Z0-9-.]] *)
Definition tail_set : list set_item :=
  [a_z; A_Z; d0_9; IN_LITERAL (ord "-"); IN_LITERAL (ord ".")].

(** [r"^[a-zA-Z0-9_.+-]+@[a-zA-Z0-9-]+\.[a-zA-Z0-9-.]+$"] *)
Definition pattern : list op :=
  [AT_BEGINNING; MAX_REPEAT 1 local_set; LITERAL (ord "@");
   MAX_REPEAT 1 host_set; LITERAL (ord "."); MAX_REPEAT 1 tail_set; AT_END].

Definition is_valid_email (email : str) : bool := re_match pattern email.

(** ** The SQLite store

    The file [customers.db] holds tables of the shape the program creates:
    one [INTEGER PRIMARY KEY AUTOINCREMENT] column (an alias of the rowid)
    and [TEXT] columns, each with or without [NOT NULL].  A bound parameter
    is a Python [str] or [None]; a cell is [Some] text or [None] for NULL. *)

Record column : Type := { col_name : string; col_notnull : bool }.

Record row : Type := { row_id : Z; row_cells : list (option str) }.

Record table : Type := {
  tbl_name : string;
  tbl_rowid : string;          (* the INTEGER PRIMARY KEY AUTOINCREMENT column *)
  tbl_columns : list column;   (* the TEXT columns, in order *)
  tbl_rows : list row;
  tbl_seq : Z                  (* sqlite_sequence: largest rowid handed out *)
}.

Definition database := list table.

Inductive statement : Type :=
| CREATE_TABLE_IF_NOT_EXISTS (name rowid : string) (cols : list column)
| INSERT_INTO (name : string) (cols : list string).  (* VALUES (?, ..., ?) *)

(** SQLite compares the names of tables and columns without regard to
    the case of the ASCII letters. *)
Definition lower_ascii (a : ascii) : ascii :=
  let n := N_of_ascii a in
  if ((65 <=? n) && (n <=? 90))%N then ascii_of_N (n + 32) else a.

Fixpoint lower (s : string) : string :=
  match s with
  | EmptyString => EmptyString
  | String a s' => String (lower_ascii a) (lower s')
  end.

Definition same_name (a b : string) : bool := String.eqb (lower a) (lower b).

(** SQLite keeps the names that begin with [sqlite_] for its own tables:
    [sqlite_master], the schema, and [sqlite_sequence], the highest id
    given out by each AUTOINCREMENT table.  A [database] holds them as the
    list of its tables and as the field [tbl_seq], not as tables of their
    own. *)
Definition internal_name (n : string) : bool :=
  String.prefix "sqlite_" (lower n).

Definition find_table (name : string) (db : database) : option table :=
  find (fun t => same_name (tbl_name t) name) db.

(** Replaces the table called [tbl_name t'] by [t']. *)
Definition store_table (t' : table) (db : database) : database :=
  map (fun t => if same_name (tbl_name t) (tbl_name t') then t' else t) db.

Definition has_column (t : table) (c : string) : bool :=
  existsb (fun col => same_name (col_name col) c) (tbl_columns t).

(** The value bound to column [c] by [INSERT INTO t (cols) VALUES (params)]. *)
Fixpoint bound (c : string) (cols : list string) (params : list (option str))
    : option (option str) :=
  match cols, params with
  | c' :: cols', p :: params' =>
      if same_name c' c then Some p else bound c cols' params'
  | _, _ => None
  end.

Definition cell_for (cols : list string) (params : list (option str))
    (col : column) : option str :=
  match bound (col_name col) cols params with
  | Some v => v
  | None => None
  end.

(** The largest rowid of the table; 0 stands for a table without rows. *)
Fixpoint max_rowid (rows : list row) : Z :=
  match rows with
  | [] => 0%Z
  | r :: rest =>
      match rest with
      | [] => row_id r
      | _ :: _ => Z.max (row_id r) (max_rowid rest)
      end
  end.

Definition max_int64 : Z := 9223372036854775807%Z.

(** The first named column the table does not have, if any. *)
Definition unknown_column (t : table) (cols : list string) : option string :=
  find (fun c => negb (has_column t c || same_name c (tbl_rowid t))) cols.

(** The first NOT NULL column left without a value, if any. *)
Definition null_violation (t : table) (cells : list (option str))
    : option string :=
  option_map (fun p => col_name (fst p))
    (find (fun p => col_notnull (fst p)
                    && match snd p with None => true | Some _ => false end)
          (combine (tbl_columns t) cells)).

Definition dotted (t c : string) : str := py t ++ py "." ++ py c.

(** The row an INSERT adds to [t], or the message of the [sqlite3.Error]
    it raises.  A text bound to the rowid column is refused (text that
    SQLite would read as an integer is not told apart). *)
Definition insert_row (t : table) (cols : list string)
    (params : list (option str)) : str + row :=
  if negb (Nat.eqb (List.length cols) (List.length params)) then
    inl (py "Incorrect number of bindings supplied.")
  else match unknown_column t cols with
  | Some c =>
      inl (py "table " ++ py (tbl_name t) ++ py " has no column named " ++ py c)
  | None =>
    match bound (tbl_rowid t) cols params with
    | Some (Some _) => inl (py "datatype mismatch")
    | _ =>
      let cells := map (cell_for cols params) (tbl_columns t) in
      match null_violation t cells with
      | Some c =>
          inl (py "NOT NULL constraint failed: " ++ dotted (tbl_name t) c)
      | None =>
          let top := Z.max (tbl_seq t) (max_rowid (tbl_rows t)) in
          if (max_int64 <=? top)%Z then inl (py "database or disk is full")
          else inr {| row_id := (top + 1)%Z; row_cells := cells |}
      end
    end
  end.

Definition add_row (t : table) (r : row) : table :=
  {| tbl_name := tbl_name t; tbl_rowid := tbl_rowid t;
     tbl_columns := tbl_columns t; tbl_rows := tbl_rows t ++ [r];
     tbl_seq := row_id r |}.

(** What a statement does to the tables, or the message of the error. *)
Definition run_statement (st : statement) (params : list (option str))
    (db : database) : str + database :=
  match st with
  | CREATE_TABLE_IF_NOT_EXISTS name rowid cols =>
      match params with
      | _ :: _ => inl (py "Incorrect number of bindings supplied.")
      | [] =>
        match find_table name db with
        | Some _ => inr db
        | None =>
            inr (db ++ [{| tbl_name := name; tbl_rowid := rowid;
                           tbl_columns := cols; tbl_rows := [];
                           tbl_seq := 0%Z |}])
        end
      end
  | INSERT_INTO name cols =>
      match find_table name db with
      | None => inl (py "no such table: " ++ py name)
      | Some t =>
          match insert_row t cols params with
          | inl e => inl e
          | inr r => inr (store_table (add_row t r) db)
          end
      end
  end.

(** What preparing a statement fails with, if it does: the table or a
    column it names is not there. *)
Definition prepare_error (st : statement) (db : database) : option str :=
  match st with
  | CREATE_TABLE_IF_NOT_EXISTS _ _ _ => None
  | INSERT_INTO name cols =>
      match find_table name db with
      | None => Some (py "no such table: " ++ py name)
      | Some t =>
          match unknown_column t cols with
          | Some c =>
              Some (py "table " ++ py (tbl_name t)
                    ++ py " has no column named " ++ py c)
          | None => None
          end
      end
  end.

(** How many [?] the statement has. *)
Definition placeholders (st : statement) : nat :=
  match st with
  | CREATE_TABLE_IF_NOT_EXISTS _ _ _ => 0
  | INSERT_INTO _ cols => List.length cols
  end.

(** A [str] is bound as UTF-8, which has no encoding for a surrogate code
    point standing alone. *)
Definition is_surrogate (c : char) : bool :=
  ((0xD800 <=? c) && (c <=? 0xDFFF))%N.

(** The first bound [str] that cannot be encoded, if any. *)
Fixpoint unencodable (params : list (option str)) : option str :=
  match params with
  | [] => None
  | Some s :: rest =>
      if existsb is_surrogate s then Some s else unencodable rest
  | None :: rest => unencodable rest
  end.

(** Does the statement open a transaction (DML) or run in autocommit (DDL)? *)
Definition is_dml (st : statement) : bool :=
  match st with INSERT_INTO _ _ => true | _ => false end.

(** ** The form, the world and the effects *)

Record Form : Type := {
  name_entry : str;
  birthday_entry : str;
  email_entry : str;
  phone_entry : str;
  address_entry : str;
  contact_method_var : str
}.

Inductive event : Type :=
| showwarning (title message : str)
| showerror (title message : str)
| showinfo (title message : str)
| connected            (* sqlite3.connect returned a connection *)
| closed               (* conn.close() *)
| destroyed.           (* root.destroy() *)

Record World : Type := {
  form : Form;
  db_file : database;       (* what customers.db holds, committed *)
  events : list event       (* what happened so far, oldest first *)
}.

(** A connection: the changes of its open transaction, if it has one. *)
Record connection : Type := { pending : option database }.

(** The state a method runs in: the world and its local variable [conn],
    which is unbound until the assignment in the [try] block is done. *)
Record State : Type := { world : World; conn : option connection }.

Inductive exn : Type :=
| sqlite3_Error (e : str)
| UnicodeEncodeError (object : str)
| UnboundLocalError (name : string)
| TclError (e : str).

Inductive outcome (A : Type) : Type :=
| Return (a : A)
| Raise (x : exn).
Arguments Return {A} a.
Arguments Raise {A} x.

Definition M (A : Type) : Type := State -> outcome A * State.

Definition ret {A} (a : A) : M A := fun s => (Return a, s).

Definition bind {A B} (m : M A) (f : A -> M B) : M B :=
  fun s => match m s with
           | (Return a, s') => f a s'
           | (Raise x, s') => (Raise x, s')
           end.

Definition raise {A} (x : exn) : M A := fun s => (Raise x, s).

Declare Scope py_scope.
Delimit Scope py_scope with py.
Notation "x <- m ;; k" := (bind m (fun x => k))
  (at level 61, m at next level, right associativity) : py_scope.
Notation "m ;; k" := (bind m (fun _ => k))
  (at level 61, right associativity) : py_scope.
Open Scope py_scope.

(** [try: body / except sqlite3.Error as e: handler e / finally: final].
    Other exceptions pass the [except] clause; an exception of the
    [finally] block replaces whatever was on its way. *)
Definition try_except_finally (body : M unit) (handler : str -> M unit)
    (final : M unit) : M unit :=
  fun s =>
    let '(r1, s1) := body s in
    let '(r2, s2) :=
      match r1 with
      | Raise (sqlite3_Error e) => handler e s1
      | _ => (r1, s1)
      end in
    let '(r3, s3) := final s2 in
    match r3 with
    | Raise x => (Raise x, s3)
    | Return _ => (r2, s3)
    end.

Definition get_world : M World := fun s => (Return (world s), s).

Definition put_world (w : World) : M unit :=
  fun s => (Return tt, {| world := w; conn := conn s |}).

Definition log (e : event) : M unit :=
  w <- get_world ;;
  put_world {| form := form w; db_file := db_file w;
               events := events w ++ [e] |}.

Definition set_db (d : database) : M unit :=
  w <- get_world ;;
  put_world {| form := form w; db_file := d; events := events w |}.

Definition set_form (f : Form) : M unit :=
  w <- get_world ;;
  put_world {| form := f; db_file := db_file w; events := events w |}.

(** [conn = ...] *)
Definition assign_conn (c : connection) : M unit :=
  fun s => (Return tt, {| world := world s; conn := Some c |}).

(** Reading the local [conn]. *)
Definition read_conn : M connection :=
  fun s => match conn s with
           | Some c => (Return c, s)
           | None => (Raise (UnboundLocalError "conn"), s)
           end.

(** What the environment does to one call: the message of the
    [sqlite3.Error] that [connect], [execute] or [commit] raises for a
    reason outside the tables (file permissions, a lock, a full disk).
    [execute] meets its fault when it reads the file to prepare the
    statement, before any value is bound. *)
Record Faults : Type := {
  connect_fault : option str;
  execute_fault : option str;
  commit_fault : option str
}.

Definition no_faults : Faults :=
  {| connect_fault := None; execute_fault := None; commit_fault := None |}.

(** [sqlite3.connect('customers.db')] *)
Definition sqlite3_connect (fl : Faults) : M connection :=
  match connect_fault fl with
  | Some e => raise (sqlite3_Error e)
  | None => log connected ;; ret {| pending := None |}
  end.

(** [cursor.execute(sql, params)] on the cursor of [conn]: the statement
    is prepared; a DML statement then opens a transaction if none is open;
    the parameters are counted and bound, each [str] encoded as UTF-8,
    which raises [UnicodeEncodeError], not an [sqlite3.Error], for a lone
    surrogate; and the statement is run. *)
Definition cursor_execute (fl : Faults) (st : statement)
    (params : list (option str)) : M unit :=
  c <- read_conn ;;
  w <- get_world ;;
  match execute_fault fl with
  | Some e => raise (sqlite3_Error e)
  | None =>
      let view := match pending c with Some d => d | None => db_file w end in
      match prepare_error st view with
      | Some e => raise (sqlite3_Error e)
      | None =>
          (if is_dml st then assign_conn {| pending := Some view |}
           else ret tt) ;;
          if negb (Nat.eqb (List.length params) (placeholders st)) then
            raise (sqlite3_Error (py "Incorrect number of bindings supplied."))
          else
            match unencodable params with
            | Some s => raise (UnicodeEncodeError s)
            | None =>
                match run_statement st params view with
                | inl e => raise (sqlite3_Error e)
                | inr d =>
                    if is_dml st
                       || match pending c with Some _ => true | None => false end
                    then assign_conn {| pending := Some d |}
                    else set_db d
                end
            end
      end
  end.

(** [conn.commit()] *)
Definition conn_commit (fl : Faults) : M unit :=
  c <- read_conn ;;
  match commit_fault fl with
  | Some e => raise (sqlite3_Error e)
  | None =>
      match pending c with
      | Some d => set_db d ;; assign_conn {| pending := None |}
      | None => ret tt
      end
  end.

(** [if conn: conn.close()]: a connection object is always true; closing
    drops a transaction that was not committed. *)
Definition close_if_conn : M unit :=
  _ <- read_conn ;;
  assign_conn {| pending := None |} ;;
  log closed.

(** Runs a method body in a fresh frame. *)
Definition call (m : M unit) (w : World) : outcome unit * World :=
  let '(r, s) := m {| world := w; conn := None |} in (r, world s).

(** ** The methods of [CustomerApp] *)

Definition customers_columns : list column :=
  [ {| col_name := "name"; col_notnull := true |};
    {| col_name := "birthday"; col_notnull := false |};
    {| col_name := "email"; col_notnull := true |};
    {| col_name := "phone"; col_notnull := false |};
    {| col_name := "address"; col_notnull := false |};
    {| col_name := "contact_method"; col_notnull := false |} ].

Definition create_customers : statement :=
  CREATE_TABLE_IF_NOT_EXISTS "customers" "id" customers_columns.

Definition insert_columns : list string :=
  ["name"; "birthday"; "email"; "phone"; "address"; "contact_method"].

Definition insert_customer : statement :=
  INSERT_INTO "customers" insert_columns.

Definition setup_database (fl : Faults) : M unit :=
  try_except_finally
    (c <- sqlite3_connect fl ;;
     assign_conn c ;;
     cursor_execute fl create_customers [] ;;
     conn_commit fl)
    (fun e =>
       log (showerror (py "Database Error") (py "An error occurred: " ++ e)) ;;
       log destroyed)
    close_if_conn.

Definition contact_options : list str := [py "Email"; py "Phone"; py "Mail"].

Definition empty_form : Form :=
  {| name_entry := []; birthday_entry := []; email_entry := [];
     phone_entry := []; address_entry := [];
     contact_method_var := nth 0 contact_options [] |}.

(** Only what the form holds afterwards; a root that was destroyed cannot
    take widgets any more. *)
Definition create_widgets : M unit :=
  w <- get_world ;;
  if existsb (fun e => match e with destroyed => true | _ => false end)
       (events w)
  then raise (TclError (py "application has been destroyed"))
  else set_form empty_form.

Definition clear_form : M unit :=
  w <- get_world ;;
  set_form {| name_entry := []; birthday_entry := []; email_entry := [];
              phone_entry := []; address_entry := [];
              contact_method_var := py "Email" |}.

(** The [try] block of [submit_data]. *)
Definition submit_try (fl : Faults) (params : list (option str)) : M unit :=
  c <- sqlite3_connect fl ;;
  assign_conn c ;;
  cursor_execute fl insert_customer params ;;
  conn_commit fl ;;
  log (showinfo (py "Success") (py "Customer information saved successfully!")) ;;
  clear_form.

Definition is_empty (s : str) : bool :=
  match s with [] => true | _ => false end.

Definition submit_data (fl : Faults) : M unit :=
  w <- get_world ;;
  let name := strip (name_entry (form w)) in
  let birthday := strip (birthday_entry (form w)) in
  let email := strip (email_entry (form w)) in
  let phone := strip (phone_entry (form w)) in
  let address := strip (address_entry (form w)) in
  let contact_method := contact_method_var (form w) in
  if is_empty name || is_empty email then
    log (showwarning (py "Validation Error")
           (py "Name and Email are required fields."))
  else if negb (is_valid_email email) then
    log (showwarning (py "Validation Error")
           (py "Please enter a valid email address."))
  else
    try_except_finally
      (submit_try fl [Some name; Some birthday; Some email; Some phone;
                      Some address; Some contact_method])
      (fun e =>
         log (showerror (py "Database Error") (py "Failed to save data: " ++ e)))
      close_if_conn.

(** [CustomerApp.__init__] *)
Definition init (fl : Faults) : M unit :=
  setup_database fl ;; create_widgets.

(** ** The user at the window

    Between two clicks on Submit the user types into the entries and picks
    an item of the read-only combobox.  A click runs [submit_data]; an
    exception that leaves the callback is reported by Tk and the main loop
    goes on. *)

Inductive field : Type :=
| name_field | birthday_field | email_field | phone_field | address_field.

Inductive action : Type :=
| Typing (f : field) (text : str)
| Selecting (i : nat)
| Submit (fl : Faults).

Definition edit (f : field) (text : str) (fm : Form) : Form :=
  match f with
  | name_field =>
      {| name_entry := text; birthday_entry := birthday_entry fm;
         email_entry := email_entry fm; phone_entry := phone_entry fm;
         address_entry := address_entry fm;
         contact_method_var := contact_method_var fm |}
  | birthday_field =>
      {| name_entry := name_entry fm; birthday_entry := text;
         email_entry := email_entry fm; phone_entry := phone_entry fm;
         address_entry := address_entry fm;
         contact_method_var := contact_method_var fm |}
  | email_field =>
      {| name_entry := name_entry fm; birthday_entry := birthday_entry fm;
         email_entry := text; phone_entry := phone_entry fm;
         address_entry := address_entry fm;
         contact_method_var := contact_method_var fm |}
  | phone_field =>
      {| name_entry := name_entry fm; birthday_entry := birthday_entry fm;
         email_entry := email_entry fm; phone_entry := text;
         address_entry := address_entry fm;
         contact_method_var := contact_method_var fm |}
  | address_field =>
      {| name_entry := name_entry fm; birthday_entry := birthday_entry fm;
         email_entry := email_entry fm; phone_entry := phone_entry fm;
         address_entry := text;
         contact_method_var := contact_method_var fm |}
  end.

Definition select (i : nat) (fm : Form) : Form :=
  match nth_error contact_options i with
  | Some o =>
      {| name_entry := name_entry fm; birthday_entry := birthday_entry fm;
         email_entry := email_entry fm; phone_entry := phone_entry fm;
         address_entry := address_entry fm; contact_method_var := o |}
  | None => fm
  end.

Definition with_form (fm : Form) (w : World) : World :=
  {| form := fm; db_file := db_file w; events := events w |}.

Definition step (w : World) (a : action) : World :=
  match a with
  | Typing f text => with_form (edit f text (form w)) w
  | Selecting i => with_form (select i (form w)) w
  | Submit fl => snd (call (submit_data fl) w)
  end.

Definition run (acts : list action) (w : World) : World :=
  fold_left step acts w.

(** The rows of the [customers] table, none when the table is missing. *)
Definition customers_rows (db : database) : list row :=
  match find_table "customers" db with
  | Some t => tbl_rows t
  | None => []
  end.

(** ** The shape of an accepted e-mail address *)

Definition ascii_letter (c : char) : bool :=
  ((ord "A" <=? c) && (c <=? ord "Z") || (ord "a" <=? c) && (c <=? ord "z"))%N.

Definition ascii_digit (c : char) : bool :=
  ((ord "0" <=? c) && (c <=? ord "9"))%N.

(** A letter, a digit or one of [_ . + -]. *)
Definition local_char (c : char) : bool :=
  ascii_letter c || ascii_digit c
  || (c =? ord "_")%N || (c =? ord ".")%N || (c =? ord "+")%N
  || (c =? ord "-")%N.

(** A letter, a digit or a hyphen. *)
Definition label_char (c : char) : bool :=
  ascii_letter c || ascii_digit c || (c =? ord "-")%N.

(** A letter, a digit, a hyphen or a dot. *)
Definition tail_char (c : char) : bool := label_char c || (c =? ord ".")%N.

(** What the pattern accepts up to its [$]: [local @ head . tail] with
    [local] made of [local_char]s, [head] of [label_char]s and [tail] of
    [tail_char]s, none of them empty. *)
Definition email_shape (s : str) : Prop :=
  exists l h t,
    s = l ++ ord "@" :: h ++ ord "." :: t
    /\ l <> [] /\ forallb local_char l = true
    /\ h <> [] /\ forallb label_char h = true
    /\ t <> [] /\ forallb tail_char t = true.

(** The form of the specification: [local-part@domain], the local part one
    or more of [local_char], the domain with at least one dot and made of
    letter/digit/hyphen segments.  [strict] says whether a segment has to
    have a character at all. *)
Fixpoint split_on (sep : char) (s : str) : list str :=
  match s with
  | [] => [[]]
  | c :: s' =>
      if (c =? sep)%N then [] :: split_on sep s'
      else match split_on sep s' with
           | seg :: segs => (c :: seg) :: segs
           | [] => [[c]]
           end
  end.

Definition spec_domain (strict : bool) (d : str) : bool :=
  existsb (N.eqb (ord ".")) d
  && forallb (fun seg => negb (strict && is_empty seg) && forallb label_char seg)
             (split_on (ord ".") d).

Definition spec_email_form (strict : bool) (s : str) : Prop :=
  exists l d,
    s = l ++ ord "@" :: d
    /\ l <> [] /\ forallb local_char l = true
    /\ spec_domain strict d = true.

(** ** Names for what [submit_data] works with *)

(** The tuple bound to the placeholders of the INSERT. *)
Definition bound_values (fm : Form) : list (option str) :=
  [Some (strip (name_entry fm)); Some (strip (birthday_entry fm));
   Some (strip (email_entry fm)); Some (strip (phone_entry fm));
   Some (strip (address_entry fm)); Some (contact_method_var fm)].

(** Both checks of [submit_data] let the form through. *)
Definition validated (fm : Form) : bool :=
  negb (is_empty (strip (name_entry fm)) || is_empty (strip (email_entry fm)))
  && is_valid_email (strip (email_entry fm)).

Definition cleared_form : Form :=
  {| name_entry := []; birthday_entry := []; email_entry := [];
     phone_entry := []; address_entry := [];
     contact_method_var := py "Email" |}.

Definition add_events (w : World) (evs : list event) : World :=
  {| form := form w; db_file := db_file w; events := events w ++ evs |}.

Definition required_warning : event :=
  showwarning (py "Validation Error") (py "Name and Email are required fields.").

Definition invalid_warning : event :=
  showwarning (py "Validation Error") (py "Please enter a valid email address.").

Definition save_error (e : str) : event :=
  showerror (py "Database Error") (py "Failed to save data: " ++ e).

Definition setup_error (e : str) : event :=
  showerror (py "Database Error") (py "An error occurred: " ++ e).

Definition success_info : event :=
  showinfo (py "Success") (py "Customer information saved successfully!").

(** The frame a method starts in. *)
Definition enter (w : World) : State := {| world := w; conn := None |}.

(** The cell of a row under the column called [c]. *)
Fixpoint cell (c : string) (cols : list column) (cells : list (option str))
    : option (option str) :=
  match cols, cells with
  | col :: cols', v :: cells' =>
      if same_name (col_name col) c then Some v else cell c cols' cells'
  | _, _ => None
  end.

(** The TEXT columns of the [customers] table, none when it is missing. *)
Definition customers_schema (db : database) : list column :=
  match find_table "customers" db with
  | Some t => tbl_columns t
  | None => []
  end.

(** The ways one run of [submit_data] can go, after the state machine of
    the form: the result of the call and the world it leaves. *)
Inductive submit_path (fl : Faults) (w : World)
    : outcome unit * World -> Prop :=
| ValidationFailed (ev : event) :
    validated (form w) = false ->
    ev = required_warning \/ ev = invalid_warning ->
    submit_path fl w (Return tt, add_events w [ev])
| ConnectFailed (e : str) :
    validated (form w) = true ->
    connect_fault fl = Some e ->
    submit_path fl w
      (Raise (UnboundLocalError "conn"), add_events w [save_error e])
| StoreFailed (e : str) :
    validated (form w) = true ->
    connect_fault fl = None ->
    submit_path fl w
      (Return tt, add_events w [connected; save_error e; closed])
| EncodeFailed (s : str) :
    validated (form w) = true ->
    connect_fault fl = None ->
    unencodable (bound_values (form w)) = Some s ->
    submit_path fl w
      (Raise (UnicodeEncodeError s), add_events w [connected; closed])
| Committed (d : database) :
    validated (form w) = true ->
    connect_fault fl = None ->
    run_statement insert_customer (bound_values (form w)) (db_file w) = inr d ->
    submit_path fl w
      (Return tt,
       {| form := cleared_form; db_file := d;
          events := events w ++ [connected; success_info; closed] |}).

(** Where the first [sep] cuts a string. *)
Fixpoint cut_at (sep : char) (s : str) : option (str * str) :=
  match s with
  | [] => None
  | c :: s' =>
      if (c =? sep)%N then Some ([], s')
      else match cut_at sep s' with
           | Some (l, d) => Some (c :: l, d)
           | None => None
           end
  end.

(** A record with a name that is not empty and an e-mail that passes the
    check. *)
Definition valid_record (cols : list column) (r : row) : Prop :=
  exists n e,
    cell "name" cols (row_cells r) = Some (Some n) /\ n <> []
    /\ cell "email" cols (row_cells r) = Some (Some e)
    /\ is_valid_email e = true.

(** [r] is the row that the INSERT of [submit_data] made from the form
    [fm], in a table with the TEXT columns [cols]. *)
Definition inserted_by (fm : Form) (cols : list column) (r : row) : Prop :=
  validated fm = true
  /\ exists t, tbl_columns t = cols
               /\ insert_row t insert_columns (bound_values fm) = inr r.

(** The form of the end-to-end example. *)
Definition jane_form : Form :=
  {| name_entry := py "Jane Doe"; birthday_entry := py "1990-01-01";
     email_entry := py "jane@example.com"; phone_entry := py "555-1234";
     address_entry := py "1 Main St"; contact_method_var := py "Phone" |}.

Definition jane_cells : list (option str) :=
  [Some (py "Jane Doe"); Some (py "1990-01-01"); Some (py "jane@example.com");
   Some (py "555-1234"); Some (py "1 Main St"); Some (py "Phone")].

(** The form of the example with blanks, a tab and a newline around what
    the user typed. *)
Definition padded_form : Form :=
  {| name_entry := py "  Jane Doe  ";
     birthday_entry := 9%N :: py "1990-01-01";
     email_entry := py " jane@example.com" ++ [10%N];
     phone_entry := py "555-1234 ";
     address_entry := py "   1 Main St" ++ [13%N; 10%N];
     contact_method_var := py "Phone" |}.

(** The world right after a first start in an empty directory. *)
Definition fresh_world : World :=
  snd (call (init no_faults)
         {| form := empty_form; db_file := []; events := [] |}).

(** The selection is one of the items of the combobox. *)
Definition selection_ok (fm : Form) : Prop :=
  In (contact_method_var fm) contact_options.

(** The form with its five entries trimmed. *)
Definition trim_form (fm : Form) : Form :=
  {| name_entry := strip (name_entry fm);
     birthday_entry := strip (birthday_entry fm);
     email_entry := strip (email_entry fm);
     phone_entry := strip (phone_entry fm);
     address_entry := strip (address_entry fm);
     contact_method_var := contact_method_var fm |}.

(** A cell is NULL or a text without whitespace at its ends. *)
Definition cell_stripped (c : option str) : Prop :=
  match c with
  | Some s => is_stripped s = true
  | None => True
  end.

Definition trimmed_columns : list string :=
  ["name"; "birthday"; "email"; "phone"; "address"].

(** How many tables of the file are called [name]. *)
Definition count_tables (name : string) (db : database) : nat :=
  List.length (filter (fun t => same_name (tbl_name t) name) db).

(** The table that [create_customers] makes. *)
Definition new_customers : table :=
  {| tbl_name := "customers"; tbl_rowid := "id";
     tbl_columns := customers_columns; tbl_rows := []; tbl_seq := 0 |}.






(** [connect] cannot open the file. *)
Definition cannot_open : Faults :=
  {| connect_fault := Some (py "unable to open database file");
     execute_fault := None; commit_fault := None |}.

Definition empty_world : World :=
  {| form := empty_form; db_file := []; events := [] |}.

(** * Properties *)

(** ** Trimming *)

Lemma lstrip_head (s : str) :
  match lstrip s with c :: _ => isspace c = false | [] => True end.
Proof.
  induction s as [|c s IH]; simpl; [exact I|].
  destruct (isspace c) eqn:E; [exact IH | exact E].
Qed.

(** [lstrip] only cuts a prefix off. *)
Lemma lstrip_suffix (s : str) : exists u, s = u ++ lstrip s.
Proof.
  induction s as [|c s [u IH]]; simpl.
  - exists []. reflexivity.
  - destruct (isspace c).
    + exists (c :: u). simpl. now rewrite <- IH.
    + exists []. reflexivity.
Qed.

Lemma lstrip_fixed (s : str) :
  match s with c :: _ => isspace c = false | [] => True end -> lstrip s = s.
Proof. destruct s as [|c s]; simpl; [easy|]. now intros ->. Qed.

Lemma rstrip_last (s : str) :
  match rev (rstrip s) with c :: _ => isspace c = false | [] => True end.
Proof. unfold rstrip. rewrite rev_involutive. apply lstrip_head. Qed.

(** [rstrip] only cuts a suffix off. *)
Lemma rstrip_prefix (s : str) : exists u, s = rstrip s ++ u.
Proof.
  unfold rstrip. destruct (lstrip_suffix (rev s)) as [u Hu].
  exists (rev u). rewrite <- rev_app_distr, <- Hu. now rewrite rev_involutive.
Qed.

Lemma strip_is_stripped (s : str) : is_stripped (strip s) = true.
Proof.
  unfold is_stripped, strip. apply andb_true_iff. split.
  - pose proof (lstrip_head s) as Hh.
    destruct (rstrip_prefix (lstrip s)) as [u Hu].
    destruct (rstrip (lstrip s)) as [|c r]; [reflexivity|].
    rewrite Hu in Hh. simpl in Hh. now rewrite Hh.
  - pose proof (rstrip_last (lstrip s)) as Hl.
    destruct (rev (rstrip (lstrip s))); [reflexivity|]. now rewrite Hl.
Qed.

Lemma stripped_fixed (s : str) : is_stripped s = true -> strip s = s.
Proof.
  unfold is_stripped, strip, rstrip. intros H.
  apply andb_true_iff in H as [H1 H2].
  rewrite (lstrip_fixed s).
  - rewrite lstrip_fixed; [apply rev_involutive|].
    destruct (rev s); [exact I|]. now apply negb_true_iff.
  - destruct s; [exact I|]. now apply negb_true_iff.
Qed.

Lemma strip_idempotent (s : str) : strip (strip s) = strip s.
Proof. apply stripped_fixed, strip_is_stripped. Qed.

(** A trimmed string does not end in a newline. *)
Lemma strip_no_final_newline (s u : str) : strip s <> u ++ [10%N].
Proof.
  intros E. pose proof (strip_is_stripped s) as H. rewrite E in H.
  unfold is_stripped in H. rewrite rev_unit in H.
  apply andb_true_iff in H as [_ H]. discriminate H.
Qed.

(** ** The matcher *)

Lemma in_local_set (c : char) : in_set local_set c = local_char c.
Proof.
  unfold in_set, local_set, local_char, ascii_letter, ascii_digit; simpl.
  btauto.
Qed.

Lemma in_host_set (c : char) : in_set host_set c = label_char c.
Proof.
  unfold in_set, host_set, label_char, ascii_letter, ascii_digit; simpl.
  btauto.
Qed.

Lemma in_tail_set (c : char) : in_set tail_set c = tail_char c.
Proof.
  unfold in_set, tail_set, tail_char, label_char, ascii_letter, ascii_digit;
    simpl.
  btauto.
Qed.

Lemma forallb_ext_eq {A} (f g : A -> bool) (l : list A) :
  (forall x, f x = g x) -> forallb f l = forallb g l.
Proof. intros H. induction l as [|x l IH]; simpl; [|rewrite H, IH]; easy. Qed.

(** The greedy loop finds a match exactly when some split of the input
    does: at least [lo] characters of the set, then the continuation. *)
Lemma repeat_in_spec (set : list set_item) (k : nat -> str -> bool) (s : str) :
  forall lo pos,
    repeat_in set k lo pos s = true <->
    exists a b, s = a ++ b /\ forallb (in_set set) a = true
                /\ lo <= List.length a /\ k (pos + List.length a) b = true.
Proof.
  induction s as [|c s IH]; intros lo pos; simpl.
  - rewrite andb_true_iff, Nat.eqb_eq. split.
    + intros [-> Hk]. exists [], []. simpl. rewrite Nat.add_0_r. auto.
    + intros (a & b & E & _ & Hlo & Hk).
      symmetry in E. apply app_eq_nil in E as [-> ->]. simpl in *.
      rewrite Nat.add_0_r in Hk. split; [lia | exact Hk].
  - rewrite orb_true_iff, !andb_true_iff, Nat.eqb_eq, IH. split.
    + intros [[Hc (a & b & -> & Ha & Hlo & Hk)] | [-> Hk]].
      * exists (c :: a), b. simpl. rewrite Hc, Ha.
        rewrite Nat.add_succ_r. repeat split; [lia | exact Hk].
      * exists [], (c :: s). simpl. rewrite Nat.add_0_r. auto.
    + intros (a & b & E & Ha & Hlo & Hk). destruct a as [|x a]; simpl in *.
      * right. subst b. rewrite Nat.add_0_r in Hk. split; [lia | exact Hk].
      * injection E as -> ->. apply andb_true_iff in Ha as [Hx Ha].
        left. split; [exact Hx|]. exists a, b.
        rewrite Nat.add_succ_r in Hk. repeat split; [exact Ha | lia | exact Hk].
Qed.

Lemma at_end_spec (s : str) : at_end s = true <-> s = [] \/ s = [10%N].
Proof.
  destruct s as [|c [|d s]]; simpl; split; auto; try discriminate.
  - intros H. apply N.eqb_eq in H. subst. auto.
  - intros [H|H]; [discriminate | injection H as ->; reflexivity].
  - intros [H|H]; discriminate.
Qed.

Lemma nonempty_length {A} (l : list A) : 1 <= List.length l <-> l <> [].
Proof. destruct l; simpl; split; try easy; lia. Qed.

(** What [re.match] accepts: a string of the shape, or one followed by a
    single newline. *)
Lemma is_valid_email_shape (s : str) :
  is_valid_email s = true <->
  exists nl, (nl = [] \/ nl = [10%N]) /\ exists s0, s = s0 ++ nl /\ email_shape s0.
Proof.
  unfold is_valid_email, re_match, pattern, email_shape.
  cbn [sre_match Nat.eqb andb]. rewrite repeat_in_spec. split.
  - intros (l & b & -> & Hl & Nl & Hk). destruct b as [|x b]; [discriminate|].
    apply andb_true_iff in Hk as [Hx Hk]. apply N.eqb_eq in Hx. subst x.
    apply repeat_in_spec in Hk as (h & b' & -> & Hh & Nh & Hk).
    destruct b' as [|x b]; [discriminate|].
    apply andb_true_iff in Hk as [Hx Hk]. apply N.eqb_eq in Hx. subst x.
    apply repeat_in_spec in Hk as (t & nl & -> & Ht & Nt & Hk).
    rewrite andb_true_r in Hk. apply at_end_spec in Hk.
    exists nl. split; [exact Hk|]. exists (l ++ ord "@" :: h ++ ord "." :: t).
    split.
    + rewrite <- !app_assoc. simpl. rewrite <- !app_assoc. reflexivity.
    + exists l, h, t.
      rewrite (forallb_ext_eq _ _ _ in_local_set) in Hl.
      rewrite (forallb_ext_eq _ _ _ in_host_set) in Hh.
      rewrite (forallb_ext_eq _ _ _ in_tail_set) in Ht.
      apply nonempty_length in Nl, Nh, Nt. auto 10.
  - intros (nl & Hnl & s0 & -> & l & h & t & -> & Nl & Hl & Nh & Hh & Nt & Ht).
    exists l, (ord "@" :: h ++ ord "." :: t ++ nl). split.
    { rewrite <- !app_assoc. simpl. rewrite <- !app_assoc. reflexivity. }
    rewrite (forallb_ext_eq _ _ _ in_local_set).
    split; [exact Hl|]. split; [now apply nonempty_length|].
    rewrite N.eqb_refl. cbn [andb]. apply repeat_in_spec.
    exists h, (ord "." :: t ++ nl). split; [reflexivity|].
    rewrite (forallb_ext_eq _ _ _ in_host_set).
    split; [exact Hh|]. split; [now apply nonempty_length|].
    rewrite N.eqb_refl. cbn [andb]. apply repeat_in_spec.
    exists t, nl. split; [reflexivity|].
    rewrite (forallb_ext_eq _ _ _ in_tail_set).
    split; [exact Ht|]. split; [now apply nonempty_length|].
    rewrite andb_true_r. now apply at_end_spec.
Qed.

(** On a trimmed string the newline case cannot arise. *)
Lemma is_valid_email_strip (s : str) :
  is_valid_email (strip s) = true <-> email_shape (strip s).
Proof.
  rewrite is_valid_email_shape. split.
  - intros (nl & [-> | ->] & s0 & E & H).
    + rewrite app_nil_r in E. now rewrite E.
    + now apply strip_no_final_newline in E.
  - intros H. exists []. split; [now left|]. exists (strip s).
    now rewrite app_nil_r.
Qed.

(** ** Running the methods *)

Arguments py : simpl never.
Arguments strip : simpl never.
Arguments is_valid_email : simpl never.
Arguments run_statement : simpl never.

Ltac unfold_m :=
  unfold call, submit_data, setup_database, init, create_widgets,
    try_except_finally, submit_try, sqlite3_connect, cursor_execute,
    conn_commit, close_if_conn, clear_form, log, set_db, set_form,
    assign_conn, read_conn, get_world, put_world, bind, ret, raise.

Arguments prepare_error : simpl never.
Arguments unencodable : simpl never.

Lemma prepare_create (db : database) :
  prepare_error create_customers db = None.
Proof. reflexivity. Qed.

Lemma unencodable_nil : unencodable [] = None.
Proof. reflexivity. Qed.

(** Unfolds a run of [setup_database], whose statement has no parameter. *)
Ltac step_m := cbn; rewrite ?prepare_create, ?unencodable_nil; cbn.
Ltac setup_m := unfold_m; step_m.

(** An INSERT that cannot be prepared fails with the same message when it
    is run. *)
Lemma prepare_error_run (ps : list (option str)) (db : database) (e : str) :
  List.length ps = 6 ->
  prepare_error insert_customer db = Some e ->
  run_statement insert_customer ps db = inl e.
Proof.
  unfold prepare_error, run_statement, insert_customer. intros L.
  destruct (find_table "customers" db) as [t|]; [|now intros [= <-]].
  unfold insert_row. rewrite L. cbn [insert_columns List.length Nat.eqb negb].
  destruct (unknown_column t insert_columns); [now intros [= <-] | discriminate].
Qed.

Lemma run_prepared (ps : list (option str)) (db d : database) :
  List.length ps = 6 ->
  run_statement insert_customer ps db = inr d ->
  prepare_error insert_customer db = None.
Proof.
  intros L R. destruct (prepare_error insert_customer db) as [e|] eqn:P;
    [|reflexivity].
  rewrite (prepare_error_run ps db L P) in R. discriminate.
Qed.

Lemma validated_true (fm : Form) :
  validated fm = true <->
  is_empty (strip (name_entry fm)) || is_empty (strip (email_entry fm)) = false
  /\ is_valid_email (strip (email_entry fm)) = true.
Proof. unfold validated. now rewrite andb_true_iff, negb_true_iff. Qed.

Ltac finish_m :=
  unfold add_events, required_warning, invalid_warning, save_error,
    setup_error, success_info, cleared_form, enter;
  cbn; rewrite <- ?app_assoc; cbn; reflexivity.

Section Submit.

Variables (fl : Faults) (w : World).

Lemma submit_required :
  is_empty (strip (name_entry (form w)))
  || is_empty (strip (email_entry (form w))) = true ->
  call (submit_data fl) w = (Return tt, add_events w [required_warning]).
Proof. intros H. unfold_m. cbn. rewrite H. finish_m. Qed.

Lemma submit_invalid :
  is_empty (strip (name_entry (form w)))
  || is_empty (strip (email_entry (form w))) = false ->
  is_valid_email (strip (email_entry (form w))) = false ->
  call (submit_data fl) w = (Return tt, add_events w [invalid_warning]).
Proof. intros H H0. unfold_m. cbn. rewrite H, H0. finish_m. Qed.

Hypothesis valid : validated (form w) = true.

Lemma submit_connect_fault (e : str) :
  connect_fault fl = Some e ->
  call (submit_data fl) w
  = (Raise (UnboundLocalError "conn"), add_events w [save_error e]).
Proof.
  apply validated_true in valid as [H H0].
  intros H1. unfold_m. cbn. rewrite H, H0. cbn. rewrite H1. finish_m.
Qed.

Lemma submit_execute_fault (e : str) :
  connect_fault fl = None ->
  execute_fault fl = Some e ->
  call (submit_data fl) w
  = (Return tt, add_events w [connected; save_error e; closed]).
Proof.
  apply validated_true in valid as [H H0].
  intros H1 H2. unfold_m. cbn. rewrite H, H0. cbn. rewrite H1. cbn.
  rewrite H2. finish_m.
Qed.

Lemma submit_prepare_error (e : str) :
  connect_fault fl = None ->
  execute_fault fl = None ->
  prepare_error insert_customer (db_file w) = Some e ->
  call (submit_data fl) w
  = (Return tt, add_events w [connected; save_error e; closed]).
Proof.
  apply validated_true in valid as [H H0].
  intros H1 H2 H3. unfold_m. cbn. rewrite H, H0. cbn. rewrite H1. cbn.
  rewrite H2. cbn. rewrite H3. finish_m.
Qed.

Lemma submit_unencodable (s : str) :
  connect_fault fl = None ->
  execute_fault fl = None ->
  prepare_error insert_customer (db_file w) = None ->
  unencodable (bound_values (form w)) = Some s ->
  call (submit_data fl) w
  = (Raise (UnicodeEncodeError s), add_events w [connected; closed]).
Proof.
  apply validated_true in valid as [H H0]. unfold bound_values.
  intros H1 H2 H3 H4. unfold_m. cbn. rewrite H, H0. cbn. rewrite H1. cbn.
  rewrite H2. cbn. rewrite H3. cbn. rewrite H4. finish_m.
Qed.

Lemma submit_statement_error (e : str) :
  connect_fault fl = None ->
  execute_fault fl = None ->
  unencodable (bound_values (form w)) = None ->
  run_statement insert_customer (bound_values (form w)) (db_file w) = inl e ->
  call (submit_data fl) w
  = (Return tt, add_events w [connected; save_error e; closed]).
Proof.
  intros H1 H2 U H3.
  destruct (prepare_error insert_customer (db_file w)) as [e'|] eqn:P.
  { rewrite (prepare_error_run (bound_values (form w)) _ eq_refl P) in H3.
    injection H3 as <-. now apply submit_prepare_error. }
  apply validated_true in valid as [H H0]. unfold bound_values in *.
  unfold_m. cbn. rewrite H, H0. cbn. rewrite H1. cbn.
  rewrite H2. cbn. rewrite P. cbn. rewrite U. cbn. rewrite H3. finish_m.
Qed.

Lemma submit_commit_fault (d : database) (e : str) :
  connect_fault fl = None ->
  execute_fault fl = None ->
  unencodable (bound_values (form w)) = None ->
  run_statement insert_customer (bound_values (form w)) (db_file w) = inr d ->
  commit_fault fl = Some e ->
  call (submit_data fl) w
  = (Return tt, add_events w [connected; save_error e; closed]).
Proof.
  intros H1 H2 U H3 H4.
  pose proof (run_prepared (bound_values (form w)) _ eq_refl H3) as P.
  apply validated_true in valid as [H H0]. unfold bound_values in *.
  unfold_m. cbn. rewrite H, H0. cbn. rewrite H1. cbn.
  rewrite H2. cbn. rewrite P. cbn. rewrite U. cbn. rewrite H3. cbn.
  rewrite H4. finish_m.
Qed.

Lemma submit_committed (d : database) :
  connect_fault fl = None ->
  execute_fault fl = None ->
  unencodable (bound_values (form w)) = None ->
  run_statement insert_customer (bound_values (form w)) (db_file w) = inr d ->
  commit_fault fl = None ->
  call (submit_data fl) w
  = (Return tt,
     {| form := cleared_form; db_file := d;
        events := events w ++ [connected; success_info; closed] |}).
Proof.
  intros H1 H2 U H3 H4.
  pose proof (run_prepared (bound_values (form w)) _ eq_refl H3) as P.
  apply validated_true in valid as [H H0]. unfold bound_values in *.
  unfold_m. cbn. rewrite H, H0. cbn. rewrite H1. cbn.
  rewrite H2. cbn. rewrite P. cbn. rewrite U. cbn. rewrite H3. cbn.
  rewrite H4. finish_m.
Qed.

End Submit.

(** Every run of [submit_data] takes one of the five paths. *)
Lemma submit_data_path (fl : Faults) (w : World) :
  submit_path fl w (call (submit_data fl) w).
Proof.
  destruct (validated (form w)) eqn:V.
  - destruct (connect_fault fl) as [e|] eqn:C.
    { rewrite (submit_connect_fault _ _ V C). now constructor. }
    destruct (execute_fault fl) as [e|] eqn:X.
    { rewrite (submit_execute_fault _ _ V C X). now constructor. }
    destruct (prepare_error insert_customer (db_file w)) as [e|] eqn:P.
    { rewrite (submit_prepare_error _ _ V C X P). now constructor. }
    destruct (unencodable (bound_values (form w))) as [s|] eqn:U.
    { rewrite (submit_unencodable _ _ V C X P U). now constructor. }
    destruct (run_statement insert_customer (bound_values (form w)) (db_file w))
      as [e|d] eqn:R.
    { rewrite (submit_statement_error _ _ V C X U R). now constructor. }
    destruct (commit_fault fl) as [e|] eqn:K.
    + rewrite (submit_commit_fault _ _ V C X U R K). now constructor.
    + rewrite (submit_committed _ _ V C X U R K). now constructor.
  - pose proof V as V'. unfold validated in V'.
    destruct (is_empty (strip (name_entry (form w)))
              || is_empty (strip (email_entry (form w)))) eqn:E.
    + rewrite (submit_required _ _ E). constructor; auto.
    + rewrite (submit_invalid _ _ E V'). constructor; auto.
Qed.

(** ** The tables *)

Lemma same_name_true (a b : string) :
  same_name a b = true <-> lower a = lower b.
Proof. unfold same_name. apply String.eqb_eq. Qed.

Lemma same_name_refl (a : string) : same_name a a = true.
Proof. now apply same_name_true. Qed.

Lemma same_name_left (a b c : string) (H : same_name a b = true) :
  same_name a c = same_name b c.
Proof. apply same_name_true in H. unfold same_name. now rewrite H. Qed.

Lemma same_name_right (a b c : string) (H : same_name a b = true) :
  same_name c a = same_name c b.
Proof. apply same_name_true in H. unfold same_name. now rewrite H. Qed.

Lemma find_table_name (n : string) (db : database) (t : table) :
  find_table n db = Some t -> same_name (tbl_name t) n = true.
Proof.
  unfold find_table. intros H. now apply find_some in H as [_ H].
Qed.

Lemma find_store_table (n : string) (db : database) (t t' : table) :
  find_table n db = Some t -> tbl_name t' = tbl_name t ->
  find_table n (store_table t' db) = Some t'.
Proof.
  intros F E. pose proof (find_table_name _ _ F) as Hn.
  unfold find_table, store_table in *. rewrite E.
  induction db as [|x db IH]; simpl in *; [discriminate|].
  destruct (same_name (tbl_name x) n) eqn:X.
  - injection F as ->. rewrite same_name_refl. simpl. now rewrite E, Hn.
  - rewrite (same_name_right _ _ (tbl_name x) Hn), X. simpl. rewrite X.
    now apply IH.
Qed.

(** What a successful INSERT into [customers] gives. *)
Lemma insert_customer_ok (ps : list (option str)) (db d : database) :
  run_statement insert_customer ps db = inr d ->
  exists t r,
    find_table "customers" db = Some t
    /\ insert_row t insert_columns ps = inr r
    /\ d = store_table (add_row t r) db.
Proof.
  unfold run_statement, insert_customer.
  destruct (find_table "customers" db) as [t|]; [|discriminate].
  destruct (insert_row t _ ps) as [e|r] eqn:I; [discriminate|].
  intros H. injection H as <-. now exists t, r.
Qed.

Lemma insert_customer_rows (ps : list (option str)) (db d : database) :
  run_statement insert_customer ps db = inr d ->
  exists r, customers_rows d = customers_rows db ++ [r]
            /\ customers_schema d = customers_schema db
            /\ exists t, find_table "customers" db = Some t
                         /\ insert_row t insert_columns ps = inr r.
Proof.
  intros H. apply insert_customer_ok in H as (t & r & F & I & ->).
  exists r. unfold customers_rows, customers_schema.
  rewrite (@find_store_table _ _ _ (add_row t r) F eq_refl), F.
  simpl. eauto.
Qed.

Lemma bound_in_cols c cols ps v :
  bound c cols ps = Some v ->
  exists c', In c' cols /\ same_name c' c = true.
Proof.
  revert ps. induction cols as [|c' cols IH]; intros [|p ps]; simpl;
    try discriminate.
  destruct (same_name c' c) eqn:E.
  - intros _. exists c'. auto.
  - intros H. destruct (IH _ H) as (c0 & Hin & Hc). exists c0. auto.
Qed.

Lemma bound_in_params c cols ps v : bound c cols ps = Some v -> In v ps.
Proof.
  revert ps. induction cols as [|c' cols IH]; intros [|p ps]; simpl;
    try discriminate.
  destruct (same_name c' c).
  - intros H. injection H as ->. auto.
  - intros H. right. eapply IH, H.
Qed.

Lemma bound_same a b cols ps (H : same_name a b = true) :
  bound a cols ps = bound b cols ps.
Proof.
  revert ps.
  induction cols as [|c' cols IH]; intros [|p ps]; simpl; try reflexivity.
  rewrite (same_name_right _ _ c' H). now rewrite IH.
Qed.

Lemma has_column_same t a b (H : same_name a b = true) :
  has_column t a = has_column t b.
Proof.
  unfold has_column.
  induction (tbl_columns t) as [|x cols IH]; simpl; [reflexivity|].
  now rewrite (same_name_right _ _ (col_name x) H), IH.
Qed.

Lemma cell_of_map c (f : column -> option str) (cols : list column) :
  existsb (fun col => same_name (col_name col) c) cols = true ->
  exists col,
    same_name (col_name col) c = true
    /\ cell c cols (map f cols) = Some (f col).
Proof.
  induction cols as [|x cols IH]; simpl; [discriminate|].
  destruct (same_name (col_name x) c) eqn:E.
  - intros _. exists x. split; [exact E | reflexivity].
  - simpl. exact IH.
Qed.

(** The cells of an inserted row are the bound values, or NULL. *)
Lemma insert_row_cells t cols ps r :
  insert_row t cols ps = inr r ->
  row_cells r = map (cell_for cols ps) (tbl_columns t).
Proof.
  unfold insert_row.
  destruct (negb _); [discriminate|].
  destruct (unknown_column t cols); [discriminate|].
  destruct (bound (tbl_rowid t) cols ps) as [[?|]|];
    try discriminate;
    (destruct (null_violation t _); [discriminate|]);
    (destruct (Z.leb _ _); [discriminate|]);
    intros H; injection H as <-; reflexivity.
Qed.

(** A text bound to a column is what the inserted row holds there. *)
Lemma insert_row_cell t cols ps r c v :
  insert_row t cols ps = inr r ->
  bound c cols ps = Some (Some v) ->
  cell c (tbl_columns t) (row_cells r) = Some (Some v).
Proof.
  intros I B. rewrite (insert_row_cells _ _ _ I).
  assert (has_column t c = true) as Hc.
  { unfold insert_row in I.
    destruct (negb _); [discriminate|].
    destruct (unknown_column t cols) eqn:U; [discriminate|].
    destruct (bound_in_cols _ _ _ B) as (c' & Hin & Hs).
    pose proof (find_none _ _ U c' Hin) as N.
    apply negb_false_iff, orb_true_iff in N as [N|N].
    - now rewrite <- (has_column_same t _ _ Hs).
    - rewrite (same_name_left _ _ _ Hs) in N.
      rewrite <- (bound_same _ _ cols ps N), B in I. discriminate. }
  destruct (cell_of_map c (cell_for cols ps) _ Hc) as (col & E & ->).
  unfold cell_for. now rewrite (bound_same _ _ cols ps E), B.
Qed.

Lemma insert_row_cells_from t cols ps r (P : option str -> Prop) :
  insert_row t cols ps = inr r ->
  P None -> Forall P ps -> Forall P (row_cells r).
Proof.
  intros I PN PS. rewrite (insert_row_cells _ _ _ I).
  apply Forall_map, Forall_forall. intros col _. unfold cell_for.
  destruct (bound (col_name col) cols ps) as [v|] eqn:B; [|exact PN].
  rewrite Forall_forall in PS. eapply PS, bound_in_params, B.
Qed.

(** ** The e-mail check against the form of the specification *)

Lemma local_char_not_at (c : char) : local_char c = true -> (c =? ord "@")%N = false.
Proof.
  intros H. destruct (N.eqb_spec c (ord "@")) as [->|]; [|reflexivity].
  discriminate H.
Qed.

Lemma cut_at_local (l d : str) :
  forallb local_char l = true ->
  cut_at (ord "@") (l ++ ord "@" :: d) = Some (l, d).
Proof.
  induction l as [|c l IH]; cbn [app cut_at forallb]; intros H.
  - now rewrite N.eqb_refl.
  - apply andb_true_iff in H as [Hc Hl].
    now rewrite (local_char_not_at _ Hc), (IH Hl).
Qed.

(** The form of the specification pins the two parts down. *)
Lemma spec_email_form_cut (strict : bool) (s : str) :
  spec_email_form strict s ->
  exists l d, cut_at (ord "@") s = Some (l, d) /\ spec_domain strict d = true.
Proof.
  intros (l & d & -> & _ & Hl & Hd). exists l, d.
  split; [now apply cut_at_local | exact Hd].
Qed.

(** C1, as stated, fails under either reading of "segments": with segments
    that may not be empty, ["a@b.."] passes the check and is not of the
    form; with segments that may be empty, ["a@.com"] is of the form and
    does not pass. *)
Lemma email_form_counterexample :
  (is_valid_email (py "a@b..") = true /\ ~ spec_email_form true (py "a@b.."))
  /\ (is_valid_email (py "a@.com") = false
      /\ spec_email_form false (py "a@.com")).
Proof.
  split; split.
  - reflexivity.
  - intros H. apply spec_email_form_cut in H as (l & d & C & D).
    vm_compute in C. injection C as <- <-. discriminate D.
  - reflexivity.
  - exists (py "a"), (py ".com"). repeat split; discriminate.
Qed.

(** C1 (amended): [is_valid_email] passes exactly the strings
    [local@head.tail], possibly followed by one final newline, where
    [local] is one or more letters, digits or [_ . + -], [head] one or more
    letters, digits or hyphens and [tail] one or more letters, digits,
    hyphens or dots.  The e-mail that [submit_data] checks is trimmed, so
    there the newline is out: a trimmed e-mail not of the shape makes
    [submit_data] return after a validation warning, with the store and the
    form as they were, and one of the shape passes the check.  The four
    examples of the specification come out as it says. *)
Theorem is_valid_email_accepts :
  (forall s,
      is_valid_email s = true <->
      email_shape s \/ exists s0, s = s0 ++ [10%N] /\ email_shape s0)
  /\ (forall fl w,
         let email := strip (email_entry (form w)) in
         (is_valid_email email = true <-> email_shape email)
         /\ (~ email_shape email ->
             exists ev,
               (ev = required_warning \/ ev = invalid_warning)
               /\ call (submit_data fl) w = (Return tt, add_events w [ev])))
  /\ is_valid_email (py "a@b.co") = true
  /\ is_valid_email (py "john.doe+tag@example.org") = true
  /\ is_valid_email (py "no-at-sign.com") = false
  /\ is_valid_email (py "a@b") = false.
Proof.
  split; [|split; [|repeat split]].
  - intros s. rewrite is_valid_email_shape. split.
    + intros (nl & [-> | ->] & s0 & -> & H).
      * left. now rewrite app_nil_r.
      * right. now exists s0.
    + intros [H | (s0 & -> & H)].
      * exists []. split; [now left|]. exists s. now rewrite app_nil_r.
      * exists [10%N]. split; [now right|]. now exists s0.
  - intros fl w email. split; [apply is_valid_email_strip|].
    intros N.
    assert (validated (form w) = false) as V.
    { unfold validated. apply andb_false_iff. right.
      destruct (is_valid_email (strip (email_entry (form w)))) eqn:E;
        [|reflexivity].
      apply is_valid_email_strip in E. contradiction. }
    destruct (submit_data_path fl w) as [ev _ Hev| | | |]; try congruence.
    now exists ev.
Qed.

(** C2: with the trimmed name or the trimmed e-mail empty, [submit_data]
    returns without touching the store (no connection is even opened), the
    form keeps its values, and the one thing that happens is the warning
    "Name and Email are required fields." *)
Theorem submit_missing_required (fl : Faults) (w : World) :
  strip (name_entry (form w)) = [] \/ strip (email_entry (form w)) = [] ->
  let '(r, w') := call (submit_data fl) w in
  r = Return tt
  /\ db_file w' = db_file w
  /\ form w' = form w
  /\ events w'
     = events w ++ [showwarning (py "Validation Error")
                      (py "Name and Email are required fields.")].
Proof.
  intros H. rewrite submit_required.
  - cbn. auto.
  - destruct H as [-> | ->]; [reflexivity | apply orb_true_r].
Qed.

Lemma submit_missing_required_witness :
  let w := {| form := edit name_field (py "   ") empty_form;
              db_file := []; events := [] |} in
  call (submit_data no_faults) w
  = (Return tt,
     {| form := form w; db_file := [];
        events := [showwarning (py "Validation Error")
                     (py "Name and Email are required fields.")] |}).
Proof.
  intros w.
  pose proof (submit_missing_required no_faults w (or_introl eq_refl)) as H.
  destruct (call (submit_data no_faults) w) as [r w'].
  destruct H as (-> & Hd & Hf & He). destruct w' as [f d ev].
  cbn in Hd, Hf, He. now subst.
Defined.

(** ** What the operations do to the table *)

Lemma app_one_neq {A} (l : list A) (x : A) : l <> l ++ [x].
Proof.
  intros E. apply (f_equal (@List.length A)) in E.
  rewrite length_app in E. simpl in E. lia.
Qed.

(** One action leaves the rows alone or appends the row made from the
    form; the columns stay. *)
Lemma step_inserts (w : World) (a : action) :
  customers_schema (db_file (step w a)) = customers_schema (db_file w)
  /\ (customers_rows (db_file (step w a)) = customers_rows (db_file w)
      \/ exists r,
           customers_rows (db_file (step w a))
           = customers_rows (db_file w) ++ [r]
           /\ inserted_by (form w) (customers_schema (db_file w)) r).
Proof.
  destruct a as [f text|i|fl]; cbn [step]; auto.
  destruct (submit_data_path fl w) as [ev V _|e V _|e V _|s V _ _|d V _ R];
    cbn; auto.
  apply insert_customer_rows in R as (r & Hr & Hs & t & F & I).
  split; [exact Hs|]. right. exists r. split; [exact Hr|].
  split; [exact V|]. exists t. split; [|exact I].
  unfold customers_schema. now rewrite F.
Qed.

Section Sessions.

(** A property of the form that no action breaks. *)
Variable I : Form -> Prop.
Hypothesis I_step : forall w a, I (form w) -> I (form (step w a)).

Lemma run_inserts (acts : list action) :
  forall w,
    I (form w) ->
    I (form (run acts w))
    /\ customers_schema (db_file (run acts w)) = customers_schema (db_file w)
    /\ exists new,
         customers_rows (db_file (run acts w))
         = customers_rows (db_file w) ++ new
         /\ Forall (fun r => exists fm,
                        I fm /\ inserted_by fm (customers_schema (db_file w)) r)
                   new.
Proof.
  induction acts as [|a acts IH]; intros w Hw; cbn [run fold_left].
  - split; [exact Hw|]. split; [reflexivity|]. exists [].
    now rewrite app_nil_r.
  - destruct (IH (step w a) (I_step w a Hw)) as (Hi & Hs & new & Hr & Hn).
    fold (run acts (step w a)).
    destruct (step_inserts w a) as [Hs1 Hr1]. rewrite Hs1 in *.
    split; [exact Hi|]. split; [exact Hs|].
    destruct Hr1 as [E | (r & E & Hin)]; rewrite E in Hr.
    + now exists new.
    + exists (r :: new). rewrite <- app_assoc in Hr. split; [exact Hr|].
      constructor; [|exact Hn]. now exists (form w).
Qed.

End Sessions.

Lemma selection_ok_step (w : World) (a : action) :
  selection_ok (form w) -> selection_ok (form (step w a)).
Proof.
  unfold selection_ok. intros H. destruct a as [f text|i|fl]; cbn [step].
  - now destruct f.
  - unfold with_form, select. cbn [form].
    destruct (nth_error contact_options i) as [o|] eqn:E; [|exact H].
    cbn [contact_method_var]. eapply nth_error_In, E.
  - destruct (submit_data_path fl w); cbn [snd add_events form]; auto.
    now left.
Qed.

Lemma inserted_valid (fm : Form) (cols : list column) (r : row) :
  inserted_by fm cols r -> valid_record cols r.
Proof.
  intros (V & t & <- & I). apply validated_true in V as [Hn He].
  exists (strip (name_entry fm)), (strip (email_entry fm)).
  split; [now apply (insert_row_cell _ _ _ _ I)|].
  split; [intros E; now rewrite E in Hn|].
  split; [now apply (insert_row_cell _ _ _ _ I) | exact He].
Qed.

Lemma find_none_app {A} (f : A -> bool) (l l' : list A) :
  find f l = None -> find f (l ++ l') = find f l'.
Proof.
  induction l as [|x l IH]; simpl; [reflexivity|].
  destruct (f x); [discriminate | exact IH].
Qed.

(** [CREATE TABLE IF NOT EXISTS] keeps the rows that are there. *)
Lemma create_customers_rows (db d : database) :
  run_statement create_customers [] db = inr d ->
  customers_rows d = customers_rows db.
Proof.
  unfold run_statement, create_customers, customers_rows.
  destruct (find_table "customers" db) as [t|] eqn:F.
  - intros H. injection H as <-. now rewrite F.
  - intros H. injection H as <-. unfold find_table in *.
    rewrite (find_none_app _ _ _ F). reflexivity.
Qed.

Lemma setup_database_file (fl : Faults) (w : World) :
  db_file (snd (call (setup_database fl) w)) = db_file w
  \/ run_statement create_customers [] (db_file w)
     = inr (db_file (snd (call (setup_database fl) w))).
Proof.
  setup_m.
  destruct (connect_fault fl); step_m; auto.
  destruct (execute_fault fl); step_m; auto.
  destruct (run_statement create_customers [] (db_file w)) eqn:R; cbn; auto.
  destruct (commit_fault fl); step_m; auto.
Qed.

(** C3: the rows of [customers] that are there stay as they are and where
    they are, whatever the program does: [setup_database] changes no row,
    and any sequence of user actions only appends rows, each with a name
    that is not empty and an e-mail that passes the check. *)
Theorem stored_records_valid_and_kept :
  (forall fl w,
      customers_rows (db_file (snd (call (setup_database fl) w)))
      = customers_rows (db_file w))
  /\ (forall acts w,
         exists new,
           customers_rows (db_file (run acts w))
           = customers_rows (db_file w) ++ new
           /\ Forall (valid_record (customers_schema (db_file (run acts w))))
                     new).
Proof.
  split.
  - intros fl w. destruct (setup_database_file fl w) as [-> | H];
      [reflexivity | now apply create_customers_rows].
  - intros acts w.
    destruct (run_inserts (fun _ => True) (fun _ _ _ => Logic.I) acts w Logic.I)
      as (_ & Hs & new & Hr & Hn).
    exists new. split; [exact Hr|]. rewrite Hs.
    eapply Forall_impl; [|exact Hn].
    intros r (fm & _ & H). eapply inserted_valid, H.
Qed.

(** ** One submission *)

Lemma validated_jane : validated jane_form = true.
Proof. reflexivity. Qed.

Lemma bound_values_jane : bound_values jane_form = jane_cells.
Proof. reflexivity. Qed.

(** The INSERT of the example on a table as [setup_database] creates it. *)
Lemma insert_row_jane (t : table) :
  tbl_columns t = customers_columns ->
  tbl_rowid t = "id" ->
  (Z.max (tbl_seq t) (max_rowid (tbl_rows t)) < max_int64)%Z ->
  insert_row t insert_columns jane_cells
  = inr {| row_id := Z.max (tbl_seq t) (max_rowid (tbl_rows t)) + 1;
           row_cells := jane_cells |}.
Proof.
  intros Hc Hr Hm. unfold insert_row, unknown_column, has_column, null_violation.
  rewrite Hc, Hr. cbn.
  apply Z.leb_gt in Hm. now rewrite Hm.
Qed.

Lemma max_rowid_bound (rows : list row) (r : row) :
  In r rows -> (row_id r <= max_rowid rows)%Z.
Proof.
  induction rows as [|x rows IH]; [easy|].
  cbn [max_rowid]. destruct rows as [|y rows].
  - intros [-> | []]. lia.
  - intros [-> | H]; [|apply IH in H]; lia.
Qed.

(** C4: the end-to-end example.  With the form holding the six values, a
    [customers] table as [setup_database] creates it, rowids left and no
    fault from the environment, [submit_data] returns normally; the table
    has exactly one more row, with the six values as its cells and the
    next rowid, above the id of every row already there, as its id; what
    happens is: connection opened, "Success" shown, connection closed; and
    the form is cleared. *)
Theorem submit_jane_doe (w : World) (t : table) :
  form w = jane_form ->
  find_table "customers" (db_file w) = Some t ->
  tbl_columns t = customers_columns ->
  tbl_rowid t = "id" ->
  (Z.max (tbl_seq t) (max_rowid (tbl_rows t)) < max_int64)%Z ->
  let '(r, w') := call (submit_data no_faults) w in
  r = Return tt
  /\ customers_rows (db_file w')
     = customers_rows (db_file w)
       ++ [{| row_id := Z.max (tbl_seq t) (max_rowid (tbl_rows t)) + 1;
              row_cells :=
                [Some (py "Jane Doe"); Some (py "1990-01-01");
                 Some (py "jane@example.com"); Some (py "555-1234");
                 Some (py "1 Main St"); Some (py "Phone")] |}]
  /\ events w'
     = events w
       ++ [connected;
           showinfo (py "Success")
             (py "Customer information saved successfully!");
           closed]
  /\ form w'
     = {| name_entry := []; birthday_entry := []; email_entry := [];
          phone_entry := []; address_entry := [];
          contact_method_var := py "Email" |}
  /\ Forall (fun old =>
               (row_id old < Z.max (tbl_seq t) (max_rowid (tbl_rows t)) + 1)%Z)
            (customers_rows (db_file w)).
Proof.
  intros Hf F Hc Hr Hm.
  pose proof (insert_row_jane t Hc Hr Hm) as I.
  assert (run_statement insert_customer (bound_values (form w)) (db_file w)
          = inr (store_table
                   (add_row t {| row_id := Z.max (tbl_seq t)
                                              (max_rowid (tbl_rows t)) + 1;
                                 row_cells := jane_cells |})
                   (db_file w))) as R.
  { rewrite Hf, bound_values_jane. unfold run_statement, insert_customer.
    now rewrite F, I. }
  assert (validated (form w) = true) as V by (rewrite Hf; apply validated_jane).
  assert (unencodable (bound_values (form w)) = None) as U
    by (rewrite Hf; reflexivity).
  rewrite (submit_committed no_faults w V eq_refl eq_refl U R eq_refl).
  split; [reflexivity|]. split; [|split; [reflexivity|split; [reflexivity|]]].
  - cbn [db_file]. unfold customers_rows.
    rewrite (@find_store_table _ _ _ (add_row t _) F eq_refl), F. reflexivity.
  - unfold customers_rows. rewrite F. apply Forall_forall. intros old Hin.
    apply max_rowid_bound in Hin. lia.
Qed.

Lemma submit_jane_doe_witness :
  let w := with_form jane_form fresh_world in
  fst (call (submit_data no_faults) w) = Return tt
  /\ customers_rows (db_file (snd (call (submit_data no_faults) w)))
     = [{| row_id := 1; row_cells := jane_cells |}]
  /\ form (snd (call (submit_data no_faults) w)) = cleared_form.
Proof.
  intros w.
  pose proof (submit_jane_doe w
                (t := {| tbl_name := "customers"; tbl_rowid := "id";
                         tbl_columns := customers_columns; tbl_rows := [];
                         tbl_seq := 0 |})
                eq_refl eq_refl eq_refl eq_refl eq_refl) as H.
  destruct (call (submit_data no_faults) w) as [r w'].
  destruct H as (H1 & H2 & _ & H4 & _).
  split; [exact H1|]. split; [exact H2 | exact H4].
Defined.

(** C5: whenever [submit_data] has added a row to [customers], it leaves
    the five entries empty and the selection on "Email" (and the last
    things that happened are the "Success" notice and the closing of the
    connection). *)
Theorem cleared_after_insert (fl : Faults) (w : World) (r : row) :
  let w' := snd (call (submit_data fl) w) in
  customers_rows (db_file w') = customers_rows (db_file w) ++ [r] ->
  name_entry (form w') = []
  /\ birthday_entry (form w') = []
  /\ email_entry (form w') = []
  /\ phone_entry (form w') = []
  /\ address_entry (form w') = []
  /\ contact_method_var (form w') = py "Email"
  /\ events w' = events w ++ [connected; success_info; closed].
Proof.
  cbv zeta.
  destruct (submit_data_path fl w) as [ev V _|e V _|e V _|s V _ _|d V _ R];
    cbn [snd add_events db_file form events]; intros H;
    try (now apply app_one_neq in H).
  cbn. repeat split.
Qed.

Lemma cleared_after_insert_witness :
  let w' := snd (call (submit_data no_faults) (with_form jane_form fresh_world)) in
  name_entry (form w') = [] /\ contact_method_var (form w') = py "Email".
Proof.
  destruct (cleared_after_insert no_faults (with_form jane_form fresh_world)
              {| row_id := 1; row_cells := jane_cells |} eq_refl)
    as (H1 & _ & _ & _ & _ & H6 & _).
  split; [exact H1 | exact H6].
Defined.




(** ** Trimming before the checks and the INSERT *)

Lemma validated_trim (fm : Form) : validated (trim_form fm) = validated fm.
Proof. unfold validated, trim_form. cbn. now rewrite !strip_idempotent. Qed.

Lemma bound_values_trim (fm : Form) :
  bound_values (trim_form fm) = bound_values fm.
Proof. unfold bound_values, trim_form. cbn. now rewrite !strip_idempotent. Qed.

(** What [submit_data] does is settled by the values it binds and by the
    file: on two worlds that agree on these, it leaves the same way, with
    the same file, after the same new events, and with the form kept in
    both or cleared in both. *)
Lemma submit_data_cong (fl : Faults) (w w2 : World) :
  bound_values (form w2) = bound_values (form w) ->
  db_file w2 = db_file w ->
  exists r (keep : bool) d new,
    call (submit_data fl) w
    = (r, {| form := if keep then form w else cleared_form;
             db_file := d; events := events w ++ new |})
    /\ call (submit_data fl) w2
       = (r, {| form := if keep then form w2 else cleared_form;
                db_file := d; events := events w2 ++ new |}).
Proof.
  intros EB ED.
  assert (strip (name_entry (form w2)) = strip (name_entry (form w))
          /\ strip (email_entry (form w2)) = strip (email_entry (form w)))
    as [En Ee].
  { unfold bound_values in EB. injection EB as E1 _ E3 _ _ _. auto. }
  assert (validated (form w2) = validated (form w)) as EV
    by (unfold validated; now rewrite En, Ee).
  destruct (validated (form w)) eqn:V.
  - destruct (connect_fault fl) as [e|] eqn:C.
    { rewrite (submit_connect_fault fl w V C),
        (submit_connect_fault fl w2 EV C).
      exists (Raise (UnboundLocalError "conn")), true, (db_file w),
        [save_error e]; unfold add_events; rewrite ED;
        now split. }
    destruct (execute_fault fl) as [e|] eqn:X.
    { rewrite (submit_execute_fault fl w V C X),
        (submit_execute_fault fl w2 EV C X).
      exists (Return tt), true, (db_file w),
        [connected; save_error e; closed]; unfold add_events; rewrite ED;
        now split. }
    destruct (prepare_error insert_customer (db_file w)) as [e|] eqn:P.
    { assert (prepare_error insert_customer (db_file w2) = Some e) as P2
        by (now rewrite ED).
      rewrite (submit_prepare_error fl w V C X P),
        (submit_prepare_error fl w2 EV C X P2).
      exists (Return tt), true, (db_file w),
        [connected; save_error e; closed]; unfold add_events; rewrite ED;
        now split. }
    assert (prepare_error insert_customer (db_file w2) = None) as P2
      by (now rewrite ED).
    destruct (unencodable (bound_values (form w))) as [s|] eqn:U.
    { assert (unencodable (bound_values (form w2)) = Some s) as U2
        by (now rewrite EB).
      rewrite (submit_unencodable fl w V C X P U),
        (submit_unencodable fl w2 EV C X P2 U2).
      exists (Raise (UnicodeEncodeError s)), true, (db_file w),
        [connected; closed]; unfold add_events; rewrite ED;
        now split. }
    assert (unencodable (bound_values (form w2)) = None) as U2
      by (now rewrite EB).
    destruct (run_statement insert_customer (bound_values (form w)) (db_file w))
      as [e|d] eqn:R.
    { assert (run_statement insert_customer (bound_values (form w2))
                (db_file w2) = inl e) as R2 by (now rewrite EB, ED).
      rewrite (submit_statement_error fl w V C X U R),
        (submit_statement_error fl w2 EV C X U2 R2).
      exists (Return tt), true, (db_file w),
        [connected; save_error e; closed]; unfold add_events; rewrite ED;
        now split. }
    assert (run_statement insert_customer (bound_values (form w2))
              (db_file w2) = inr d) as R2 by (now rewrite EB, ED).
    destruct (commit_fault fl) as [e|] eqn:K.
    + rewrite (submit_commit_fault fl w V C X U R K),
        (submit_commit_fault fl w2 EV C X U2 R2 K).
      exists (Return tt), true, (db_file w),
        [connected; save_error e; closed]; unfold add_events; rewrite ED;
        now split.
    + rewrite (submit_committed fl w V C X U R K),
        (submit_committed fl w2 EV C X U2 R2 K).
      exists (Return tt), false, d, [connected; success_info; closed].
      split; reflexivity.
  - unfold validated in V, EV.
    destruct (is_empty (strip (name_entry (form w)))
              || is_empty (strip (email_entry (form w)))) eqn:E.
    + assert (is_empty (strip (name_entry (form w2)))
              || is_empty (strip (email_entry (form w2))) = true) as E2
        by (now rewrite En, Ee).
      rewrite (submit_required fl w E), (submit_required fl w2 E2).
      exists (Return tt), true, (db_file w), [required_warning];
        unfold add_events; rewrite ED; now split.
    + assert (is_empty (strip (name_entry (form w2)))
              || is_empty (strip (email_entry (form w2))) = false) as E2
        by (now rewrite En, Ee).
      cbn in V. rewrite E2 in EV. cbn in EV.
      rewrite (submit_invalid fl w E V), (submit_invalid fl w2 E2 EV).
      exists (Return tt), true, (db_file w), [invalid_warning];
        unfold add_events; rewrite ED; now split.
Qed.

(** [submit_data] sees the entries only through their trimmed values. *)
Lemma submit_data_trim (fl : Faults) (w : World) :
  let r := call (submit_data fl) w in
  let r' := call (submit_data fl) (with_form (trim_form (form w)) w) in
  fst r' = fst r
  /\ db_file (snd r') = db_file (snd r)
  /\ events (snd r') = events (snd r).
Proof.
  cbv zeta.
  destruct (submit_data_cong fl w (with_form (trim_form (form w)) w)
              (bound_values_trim (form w)) eq_refl)
    as (r & keep & d & new & -> & ->).
  cbn. auto.
Qed.

Lemma options_stripped (o : str) : In o contact_options -> is_stripped o = true.
Proof. intros [<- | [<- | [<- | []]]]; reflexivity. Qed.

(** A submission that added a row added the row that the INSERT makes
    from the form. *)
Lemma stored_row_inserted_by (fl : Faults) (w : World) (r : row) :
  customers_rows (db_file (snd (call (submit_data fl) w)))
  = customers_rows (db_file w) ++ [r] ->
  inserted_by (form w) (customers_schema (db_file w)) r.
Proof.
  destruct (submit_data_path fl w) as [ev V _|e V _|e V _|s V _ _|d V _ R];
    cbn [snd add_events db_file]; intros H;
    try (now apply app_one_neq in H).
  apply insert_customer_rows in R as (r' & Hr & _ & t & F & I).
  rewrite Hr in H. apply app_inj_tail in H as [_ <-].
  split; [exact V|]. exists t. split; [|exact I].
  unfold customers_schema. now rewrite F.
Qed.

(** C7: the checks and the INSERT of [submit_data] work on the trimmed
    entries, and no cell of a row that the program inserts starts or ends
    with whitespace.
    - The selection starts on an item of the combobox and every action
      keeps it there.
    - The result, the store and what is shown are the same as for the form
      with its entries trimmed.
    - Of the rows added by any sequence of actions, the five trimmed
      columns hold trimmed text whatever the form holds, and with the
      selection on an item of the combobox so does every cell.
    - A submission that stores a row passed the checks on the trimmed name
      and e-mail, and the row holds, under each of the five columns,
      exactly the trimmed entry.
    - The form with blanks, a tab and newlines around its entries, whose
      e-mail as typed does not pass the check, is stored, as the row of
      the trimmed texts.
    - A name of blanks only is answered with "Name and Email are required
      fields.", and nothing is stored. *)
Theorem trimmed_before_check_and_storage :
  selection_ok (form fresh_world)
  /\ (forall w a, selection_ok (form w) -> selection_ok (form (step w a)))
  /\ (forall fl w,
      let r := call (submit_data fl) w in
      let r' := call (submit_data fl) (with_form (trim_form (form w)) w) in
      fst r' = fst r /\ db_file (snd r') = db_file (snd r)
      /\ events (snd r') = events (snd r))
  /\ (forall acts w,
         exists new,
           customers_rows (db_file (run acts w))
           = customers_rows (db_file w) ++ new
           /\ Forall (fun r =>
                        (forall c, In c trimmed_columns ->
                           exists v,
                             cell c (customers_schema (db_file w)) (row_cells r)
                             = Some (Some v)
                             /\ is_stripped v = true)
                        /\ (selection_ok (form w) ->
                            Forall cell_stripped (row_cells r)))
                     new)
  /\ (forall fl w r,
         customers_rows (db_file (snd (call (submit_data fl) w)))
         = customers_rows (db_file w) ++ [r] ->
         (strip (name_entry (form w)) <> []
          /\ strip (email_entry (form w)) <> []
          /\ is_valid_email (strip (email_entry (form w))) = true)
         /\ cell "name" (customers_schema (db_file w)) (row_cells r)
            = Some (Some (strip (name_entry (form w))))
         /\ cell "birthday" (customers_schema (db_file w)) (row_cells r)
            = Some (Some (strip (birthday_entry (form w))))
         /\ cell "email" (customers_schema (db_file w)) (row_cells r)
            = Some (Some (strip (email_entry (form w))))
         /\ cell "phone" (customers_schema (db_file w)) (row_cells r)
            = Some (Some (strip (phone_entry (form w))))
         /\ cell "address" (customers_schema (db_file w)) (row_cells r)
            = Some (Some (strip (address_entry (form w)))))
  /\ is_valid_email (email_entry padded_form) = false
  /\ call (submit_data no_faults) (with_form padded_form fresh_world)
     = (Return tt,
        {| form := cleared_form;
           db_file := [add_row new_customers
                         {| row_id := 1; row_cells := jane_cells |}];
           events := events fresh_world
                     ++ [connected; success_info; closed] |})
  /\ call (submit_data no_faults)
       (with_form (edit name_field (py "   ") jane_form) fresh_world)
     = (Return tt,
        add_events (with_form (edit name_field (py "   ") jane_form)
                      fresh_world)
          [required_warning]).
Proof.
  split; [now left|]. split; [exact selection_ok_step|].
  split; [exact submit_data_trim|].
  split; [|split; [|split; [|split]]].
  - intros acts w.
    destruct (run_inserts (fun fm => selection_ok (form w) -> selection_ok fm)
                (fun w0 a H0 H => selection_ok_step w0 a (H0 H)) acts w
                (fun H => H))
      as (_ & _ & new & Hr & Hn).
    exists new. split; [exact Hr|].
    eapply Forall_impl; [|exact Hn].
    intros r (fm & Hsel & V & t & Hc & I). split.
    + intros c Hin. rewrite <- Hc.
      destruct Hin as [<- | [<- | [<- | [<- | [<- | []]]]]];
        (eexists; split;
         [apply (insert_row_cell _ _ _ _ I); reflexivity
         | apply strip_is_stripped]).
    + intros Hw.
      apply insert_row_cells_from with (P := cell_stripped) (1 := I);
        [exact Logic.I|].
      unfold bound_values.
      repeat (constructor; [apply strip_is_stripped|]).
      constructor; [|constructor]. apply options_stripped, Hsel, Hw.
  - intros fl w r H.
    apply stored_row_inserted_by in H as (V & t & <- & I).
    apply validated_true in V as [E Hv].
    apply orb_false_iff in E as [En Ee].
    split.
    { split; [|split; [|exact Hv]].
      - intros Z. now rewrite Z in En.
      - intros Z. now rewrite Z in Ee. }
    repeat split; apply (insert_row_cell _ _ _ _ I); reflexivity.
  - vm_compute. reflexivity.
  - vm_compute. reflexivity.
  - vm_compute. reflexivity.
Qed.

Lemma trimmed_before_check_and_storage_witness :
  cell "email" customers_columns jane_cells
  = Some (Some (strip (email_entry padded_form)))
  /\ cell "address" customers_columns jane_cells
     = Some (Some (strip (address_entry padded_form))).
Proof.
  destruct trimmed_before_check_and_storage as (_ & _ & _ & _ & H & _).
  destruct (H no_faults (with_form padded_form fresh_world)
              {| row_id := 1; row_cells := jane_cells |} eq_refl)
    as (_ & _ & _ & He & _ & Ha).
  split; [exact He | exact Ha].
Defined.

(** ** Table initialization *)

Lemma create_customers_run (db : database) :
  run_statement create_customers [] db
  = inr (match find_table "customers" db with
         | Some _ => db
         | None => db ++ [new_customers]
         end).
Proof.
  unfold run_statement, create_customers.
  now destruct (find_table "customers" db).
Qed.

Lemma setup_database_no_faults (w : World) :
  call (setup_database no_faults) w
  = (Return tt,
     {| form := form w;
        db_file := match find_table "customers" (db_file w) with
                   | Some _ => db_file w
                   | None => db_file w ++ [new_customers]
                   end;
        events := events w ++ [connected; closed] |}).
Proof.
  setup_m. rewrite create_customers_run. cbn.
  rewrite <- app_assoc. reflexivity.
Qed.

Lemma find_table_created (db : database) :
  exists t,
    find_table "customers"
      (match find_table "customers" db with
       | Some _ => db
       | None => db ++ [new_customers]
       end) = Some t.
Proof.
  destruct (find_table "customers" db) as [t|] eqn:F.
  - now exists t.
  - exists new_customers. unfold find_table in *.
    now rewrite (find_none_app _ _ _ F).
Qed.

Lemma count_tables_found (n : string) (db : database) :
  match find_table n db with
  | Some _ => 1 <= count_tables n db
  | None => count_tables n db = 0
  end.
Proof.
  unfold find_table, count_tables.
  induction db as [|x db IH]; simpl; [reflexivity|].
  destruct (same_name (tbl_name x) n); simpl; [lia | exact IH].
Qed.

(** Once the table is there, [setup_database] leaves the file alone
    whatever goes wrong. *)
Lemma setup_database_again (fl : Faults) (w : World) (t : table) :
  find_table "customers" (db_file w) = Some t ->
  db_file (snd (call (setup_database fl) w)) = db_file w.
Proof.
  intros F. destruct (setup_database_file fl w) as [E | E]; [exact E|].
  rewrite create_customers_run, F in E. now injection E as <-.
Qed.

(** C8: two initializations in a row, the environment raising no fault:
    both return normally; the second changes nothing in the file (tables,
    columns, rows) and shows no error; there is one [customers] table
    afterwards (as many as before when there were some); and even with
    faults a second initialization leaves the file as the first made it. *)
Theorem setup_database_idempotent (w : World) :
  let r1 := call (setup_database no_faults) w in
  let r2 := call (setup_database no_faults) (snd r1) in
  fst r1 = Return tt
  /\ fst r2 = Return tt
  /\ db_file (snd r2) = db_file (snd r1)
  /\ events (snd r2) = events (snd r1) ++ [connected; closed]
  /\ count_tables "customers" (db_file (snd r2))
     = Nat.max 1 (count_tables "customers" (db_file w))
  /\ forall fl,
       db_file (snd (call (setup_database fl) (snd r1))) = db_file (snd r1).
Proof.
  cbv zeta. rewrite !setup_database_no_faults. cbn [fst snd db_file events].
  destruct (find_table_created (db_file w)) as [t Ht]. rewrite Ht.
  split; [reflexivity|]. split; [reflexivity|]. split; [reflexivity|].
  split; [reflexivity|]. split.
  - pose proof (count_tables_found "customers" (db_file w)) as H.
    destruct (find_table "customers" (db_file w)); [lia|].
    unfold count_tables in *. rewrite filter_app, length_app, H. reflexivity.
  - intros fl.
    exact (setup_database_again fl
             (Build_World (form w) _ (events w ++ [connected; closed])) Ht).
Qed.

(** ** Connections *)





(** ** The columns and the selection *)



(** * More of the program

    How the two methods leave, what [setup_database] reports, when the
    window comes up at all, and what a session does to the table and to
    the rest of the file. *)

(** The first of [connect], [execute], [commit] that the environment lets
    fail, with its message. *)
Definition first_fault (fl : Faults) : option str :=
  match connect_fault fl with
  | Some e => Some e
  | None =>
      match execute_fault fl with
      | Some e => Some e
      | None => commit_fault fl
      end
  end.

Definition is_destroyed (e : event) : bool :=
  match e with destroyed => true | _ => false end.

(** What [create_customers] leaves in the file. *)
Definition with_customers (db : database) : database :=
  match find_table "customers" db with
  | Some _ => db
  | None => db ++ [new_customers]
  end.

Definition is_submit (a : action) : bool :=
  match a with Submit _ => true | _ => false end.

(** How often the user clicks Submit. *)
Definition clicks (acts : list action) : nat :=
  List.length (filter is_submit acts).

(** The ids of the rows, in the order of the table. *)
Definition row_ids (db : database) : list Z := map row_id (customers_rows db).

(** Each id is below all the ids after it. *)
Fixpoint increasing (ids : list Z) : Prop :=
  match ids with
  | [] => True
  | i :: rest => Forall (fun j => (i < j)%Z) rest /\ increasing rest
  end.

(** ** How the methods leave *)

(** No [sqlite3.Error] leaves either method.  [setup_database] returns
    normally, except that it leaves by the [UnboundLocalError] of
    [if conn:] exactly when [sqlite3.connect] failed.  [submit_data] leaves
    by that error exactly when the form passed validation and the
    connection failed, and by a [UnicodeEncodeError] exactly when the
    INSERT was prepared (connection and [execute] without fault, table and
    columns there) and one of the bound values holds a lone surrogate; in
    every other case it returns normally. *)
Theorem methods_exit (fl : Faults) (w : World) :
  fst (call (setup_database fl) w)
  = match connect_fault fl with
    | Some _ => Raise (UnboundLocalError "conn")
    | None => Return tt
    end
  /\ fst (call (submit_data fl) w)
     = if validated (form w)
       then match connect_fault fl, execute_fault fl,
                  prepare_error insert_customer (db_file w),
                  unencodable (bound_values (form w)) with
            | Some _, _, _, _ => Raise (UnboundLocalError "conn")
            | None, None, None, Some s => Raise (UnicodeEncodeError s)
            | _, _, _, _ => Return tt
            end
       else Return tt.
Proof.
  split.
  - setup_m.
    destruct (connect_fault fl); step_m; [reflexivity|].
    destruct (execute_fault fl); step_m; [reflexivity|].
    rewrite create_customers_run. cbn.
    destruct (commit_fault fl); reflexivity.
  - destruct (validated (form w)) eqn:V.
    + destruct (connect_fault fl) as [e|] eqn:C.
      { now rewrite (submit_connect_fault fl w V C). }
      destruct (execute_fault fl) as [e|] eqn:X.
      { now rewrite (submit_execute_fault fl w V C X). }
      destruct (prepare_error insert_customer (db_file w)) as [e|] eqn:P.
      { now rewrite (submit_prepare_error fl w V C X P). }
      destruct (unencodable (bound_values (form w))) as [s|] eqn:U.
      { now rewrite (submit_unencodable fl w V C X P U). }
      destruct (submit_data_path fl w)
        as [ev V' _|e V' C'|e V' _|s V' _ U'|d V' _ _];
        try reflexivity; congruence.
    + destruct (submit_data_path fl w)
        as [ev V' _|e V' _|e V' _|s V' _ _|d V' _ _];
        try reflexivity; congruence.
Qed.

(** What [setup_database] shows and leaves behind, by the first step that
    fails: nothing but the opening and closing of the connection when none
    does; otherwise "Database Error" with "An error occurred: " and the
    detail, then the destruction of the root, with the connection closed
    afterwards if it was opened.  The table is there once [execute] went
    through, also when it is [commit] that fails. *)
Theorem setup_database_reports (fl : Faults) (w : World) :
  let w' := snd (call (setup_database fl) w) in
  form w' = form w
  /\ events w'
     = events w
       ++ match connect_fault fl, first_fault fl with
          | Some _, Some e => [setup_error e; destroyed]
          | None, Some e => [connected; setup_error e; destroyed; closed]
          | _, None => [connected; closed]
          end
  /\ db_file w'
     = match connect_fault fl, execute_fault fl with
       | None, None => with_customers (db_file w)
       | _, _ => db_file w
       end.
Proof.
  unfold first_fault, with_customers. setup_m.
  destruct (connect_fault fl); step_m.
  { rewrite <- !app_assoc. auto. }
  destruct (execute_fault fl); step_m.
  { rewrite <- !app_assoc. auto. }
  rewrite create_customers_run. cbn.
  destruct (commit_fault fl); step_m; rewrite <- !app_assoc; auto.
Qed.

Lemma existsb_destroyed_app (evs new : list event) :
  existsb is_destroyed (evs ++ new)
  = existsb is_destroyed evs || existsb is_destroyed new.
Proof. apply existsb_app. Qed.

(** The window comes up exactly when no step of [setup_database] fails:
    then [__init__] returns with the five entries empty, the selection on
    "Email" and a [customers] table in the file; with any fault it does
    not return, and no form is made. *)
Theorem init_comes_up (fl : Faults) (w : World) :
  existsb is_destroyed (events w) = false ->
  match first_fault fl with
  | None =>
      call (init fl) w
      = (Return tt,
         {| form := empty_form; db_file := with_customers (db_file w);
            events := events w ++ [connected; closed] |})
      /\ exists t, find_table "customers" (with_customers (db_file w)) = Some t
  | Some _ =>
      fst (call (init fl) w) <> Return tt
      /\ form (snd (call (init fl) w)) = form w
  end.
Proof.
  intros D. unfold first_fault, with_customers, init. setup_m.
  destruct (connect_fault fl); step_m.
  { split; [discriminate | reflexivity]. }
  destruct (execute_fault fl); step_m.
  { fold is_destroyed. rewrite <- !app_assoc, existsb_destroyed_app, D. cbn.
    split; [discriminate | reflexivity]. }
  rewrite create_customers_run. cbn.
  destruct (commit_fault fl); step_m; fold is_destroyed;
    rewrite <- !app_assoc, existsb_destroyed_app, D; cbn.
  - split; [discriminate | reflexivity].
  - split; [reflexivity | apply find_table_created].
Qed.

Lemma init_comes_up_witness :
  call (init no_faults) empty_world
  = (Return tt,
     {| form := empty_form; db_file := [new_customers];
        events := [connected; closed] |}).
Proof.
  exact (proj1 (init_comes_up no_faults empty_world eq_refl)).
Defined.

(** ** The paths of one submission *)

(** With a name and an e-mail that are not empty after trimming and an
    e-mail that fails the check, [submit_data] returns after the warning
    "Please enter a valid email address."; the store and the form are
    untouched and no connection is opened, whatever the environment. *)
Theorem submit_invalid_email (fl : Faults) (w : World) :
  strip (name_entry (form w)) <> [] ->
  strip (email_entry (form w)) <> [] ->
  is_valid_email (strip (email_entry (form w))) = false ->
  let '(r, w') := call (submit_data fl) w in
  r = Return tt
  /\ db_file w' = db_file w
  /\ form w' = form w
  /\ events w'
     = events w ++ [showwarning (py "Validation Error")
                      (py "Please enter a valid email address.")].
Proof.
  intros Hn He Hv. rewrite submit_invalid.
  - cbn. auto.
  - destruct (strip (name_entry (form w))); [contradiction|].
    destruct (strip (email_entry (form w))); [contradiction|]. reflexivity.
  - exact Hv.
Qed.

Lemma submit_invalid_email_witness :
  let w := with_form (edit email_field (py "a@b") jane_form) fresh_world in
  fst (call (submit_data cannot_open) w) = Return tt
  /\ db_file (snd (call (submit_data cannot_open) w)) = db_file fresh_world.
Proof.
  intros w.
  assert (py "Jane Doe" <> []) as Hn by discriminate.
  assert (py "a@b" <> []) as He by discriminate.
  pose proof (submit_invalid_email cannot_open w Hn He eq_refl) as H.
  destruct (call (submit_data cannot_open) w) as [r w'].
  destruct H as (H1 & H2 & _). split; [exact H1 | exact H2].
Defined.

(** When the file has no [customers] table, a submission that passes
    validation and gets its connection fails at the INSERT: "Database
    Error" with "Failed to save data: no such table: customers" is shown,
    the connection is closed, and the file and the form stay as they
    were. *)
Theorem submit_without_table (fl : Faults) (w : World) :
  validated (form w) = true ->
  find_table "customers" (db_file w) = None ->
  connect_fault fl = None ->
  execute_fault fl = None ->
  call (submit_data fl) w
  = (Return tt,
     {| form := form w; db_file := db_file w;
        events :=
          events w
          ++ [connected;
              showerror (py "Database Error")
                (py "Failed to save data: no such table: customers");
              closed] |}).
Proof.
  intros V F C X.
  rewrite (submit_prepare_error fl w V C X
             (e := py "no such table: customers")).
  - reflexivity.
  - unfold prepare_error, insert_customer. now rewrite F.
Qed.

Lemma submit_without_table_witness :
  db_file (snd (call (submit_data no_faults) (with_form jane_form empty_world)))
  = [].
Proof.
  exact (f_equal (fun p => db_file (snd p))
           (submit_without_table no_faults (with_form jane_form empty_world)
              eq_refl eq_refl eq_refl eq_refl)).
Defined.

(** A value with a lone surrogate (a code point from U+D800 to U+DFFF)
    cannot be stored, and the failure is not a [sqlite3.Error]: when a
    submission passes validation, gets its connection and has its INSERT
    prepared, but one of the six values holds a lone surrogate,
    [submit_data] ends with the [UnicodeEncodeError] of the first such
    value.  No message is shown, the connection is closed, and the file
    and the form stay as they were. *)
Theorem submit_lone_surrogate (fl : Faults) (w : World) (s : str) :
  validated (form w) = true ->
  connect_fault fl = None ->
  execute_fault fl = None ->
  prepare_error insert_customer (db_file w) = None ->
  unencodable (bound_values (form w)) = Some s ->
  call (submit_data fl) w
  = (Raise (UnicodeEncodeError s),
     {| form := form w; db_file := db_file w;
        events := events w ++ [connected; closed] |}).
Proof.
  intros V C X P U. now rewrite (submit_unencodable fl w V C X P U).
Qed.

Lemma submit_lone_surrogate_witness :
  let w := with_form (edit name_field (py "Jane" ++ [55296%N]) jane_form)
             fresh_world in
  fst (call (submit_data no_faults) w)
  = Raise (UnicodeEncodeError (py "Jane" ++ [55296%N]))
  /\ db_file (snd (call (submit_data no_faults) w)) = db_file fresh_world.
Proof.
  intros w.
  pose proof (submit_lone_surrogate no_faults w (s := py "Jane" ++ [55296%N])
                eq_refl eq_refl eq_refl eq_refl eq_refl) as H.
  rewrite H. split; reflexivity.
Defined.

(** The INSERT of [submit_data] on a table as [setup_database] creates it:
    it fails only when the rowids are used up, and otherwise makes the row
    of the six bound values, in the order of the columns, under the next
    rowid. *)
Lemma insert_row_program_table (t : table) (fm : Form) :
  tbl_columns t = customers_columns ->
  tbl_rowid t = "id" ->
  insert_row t insert_columns (bound_values fm)
  = if (max_int64 <=? Z.max (tbl_seq t) (max_rowid (tbl_rows t)))%Z
    then inl (py "database or disk is full")
    else inr {| row_id := Z.max (tbl_seq t) (max_rowid (tbl_rows t)) + 1;
                row_cells := bound_values fm |}.
Proof.
  intros Hc Hr. unfold insert_row, unknown_column, has_column, null_violation.
  rewrite Hc, Hr. reflexivity.
Qed.

(** Any form that passes validation and can be encoded (no lone surrogate
    in a value) is stored as it is bound: on a table as [setup_database]
    creates it, with rowids left and no fault from the environment,
    [submit_data] appends the row of the five trimmed entries and the
    selection under the next rowid, shows "Success" between the opening
    and the closing of the connection, and clears the form. *)
Theorem submit_commits (w : World) (t : table) :
  validated (form w) = true ->
  unencodable (bound_values (form w)) = None ->
  find_table "customers" (db_file w) = Some t ->
  tbl_columns t = customers_columns ->
  tbl_rowid t = "id" ->
  (Z.max (tbl_seq t) (max_rowid (tbl_rows t)) < max_int64)%Z ->
  let '(r, w') := call (submit_data no_faults) w in
  r = Return tt
  /\ customers_rows (db_file w')
     = customers_rows (db_file w)
       ++ [{| row_id := Z.max (tbl_seq t) (max_rowid (tbl_rows t)) + 1;
              row_cells :=
                [Some (strip (name_entry (form w)));
                 Some (strip (birthday_entry (form w)));
                 Some (strip (email_entry (form w)));
                 Some (strip (phone_entry (form w)));
                 Some (strip (address_entry (form w)));
                 Some (contact_method_var (form w))] |}]
  /\ events w' = events w ++ [connected; success_info; closed]
  /\ form w' = cleared_form.
Proof.
  intros V U F Hc Hr Hm.
  pose proof (insert_row_program_table t (form w) Hc Hr) as I.
  apply Z.leb_gt in Hm. rewrite Hm in I.
  assert (run_statement insert_customer (bound_values (form w)) (db_file w)
          = inr (store_table
                   (add_row t {| row_id := Z.max (tbl_seq t)
                                              (max_rowid (tbl_rows t)) + 1;
                                 row_cells := bound_values (form w) |})
                   (db_file w))) as R.
  { unfold run_statement, insert_customer. now rewrite F, I. }
  rewrite (submit_committed no_faults w V eq_refl eq_refl U R eq_refl).
  split; [reflexivity|]. split; [|split; reflexivity].
  cbn [db_file]. unfold customers_rows.
  rewrite (@find_store_table _ _ _ (add_row t _) F eq_refl), F. reflexivity.
Qed.

Lemma submit_commits_witness :
  let w := with_form (edit name_field (py "  Ann  ") jane_form) fresh_world in
  customers_rows (db_file (snd (call (submit_data no_faults) w)))
  = [{| row_id := 1;
        row_cells := [Some (py "Ann"); Some (py "1990-01-01");
                      Some (py "jane@example.com"); Some (py "555-1234");
                      Some (py "1 Main St"); Some (py "Phone")] |}].
Proof.
  intros w.
  pose proof (submit_commits w (t := new_customers)
                eq_refl eq_refl eq_refl eq_refl eq_refl eq_refl) as H.
  destruct (call (submit_data no_faults) w) as [r w'].
  destruct H as (_ & H & _). exact H.
Defined.

(** When the rowids of the table are used up (the largest one is the
    largest 64-bit integer), a submission that passes validation, can be
    encoded and meets no fault of the environment is refused by the
    INSERT: "database or disk is full" is shown, and the file and the form
    stay as they were. *)
Theorem submit_rowids_used_up (w : World) (t : table) :
  validated (form w) = true ->
  unencodable (bound_values (form w)) = None ->
  find_table "customers" (db_file w) = Some t ->
  tbl_columns t = customers_columns ->
  tbl_rowid t = "id" ->
  (max_int64 <= Z.max (tbl_seq t) (max_rowid (tbl_rows t)))%Z ->
  call (submit_data no_faults) w
  = (Return tt,
     {| form := form w; db_file := db_file w;
        events :=
          events w
          ++ [connected;
              showerror (py "Database Error")
                (py "Failed to save data: database or disk is full");
              closed] |}).
Proof.
  intros V U F Hc Hr Hm.
  pose proof (insert_row_program_table t (form w) Hc Hr) as I.
  apply Z.leb_le in Hm. rewrite Hm in I.
  rewrite (submit_statement_error no_faults w V eq_refl eq_refl U
             (e := py "database or disk is full")).
  - reflexivity.
  - unfold run_statement, insert_customer. now rewrite F, I.
Qed.

Lemma submit_rowids_used_up_witness :
  let full := {| tbl_name := "customers"; tbl_rowid := "id";
                 tbl_columns := customers_columns; tbl_rows := [];
                 tbl_seq := max_int64 |} in
  let w := {| form := jane_form; db_file := [full]; events := [] |} in
  db_file (snd (call (submit_data no_faults) w)) = [full].
Proof.
  intros full w.
  assert (max_int64 <= Z.max (tbl_seq full) (max_rowid (tbl_rows full)))%Z
    as Hm by (vm_compute; discriminate).
  exact (f_equal (fun p => db_file (snd p))
           (submit_rowids_used_up w (t := full)
              eq_refl eq_refl eq_refl eq_refl eq_refl Hm)).
Defined.

(** A row, or any change of the file, comes only from a submission where
    everything went well: the form passed validation, and [connect],
    [execute] and [commit] all went through.  A failure at any step, the
    commit included, leaves the file exactly as it was. *)
Theorem file_changes_only_on_success (fl : Faults) (w : World) :
  db_file (snd (call (submit_data fl) w)) <> db_file w ->
  validated (form w) = true
  /\ connect_fault fl = None
  /\ execute_fault fl = None
  /\ commit_fault fl = None
  /\ fst (call (submit_data fl) w) = Return tt
  /\ exists r,
       customers_rows (db_file (snd (call (submit_data fl) w)))
       = customers_rows (db_file w) ++ [r].
Proof.
  intros H.
  destruct (validated (form w)) eqn:V.
  - destruct (connect_fault fl) as [e|] eqn:C.
    { rewrite (submit_connect_fault fl w V C) in H. now contradiction H. }
    destruct (execute_fault fl) as [e|] eqn:X.
    { rewrite (submit_execute_fault fl w V C X) in H. now contradiction H. }
    destruct (prepare_error insert_customer (db_file w)) as [e|] eqn:P.
    { rewrite (submit_prepare_error fl w V C X P) in H. now contradiction H. }
    destruct (unencodable (bound_values (form w))) as [s|] eqn:U.
    { rewrite (submit_unencodable fl w V C X P U) in H. now contradiction H. }
    destruct (run_statement insert_customer (bound_values (form w)) (db_file w))
      as [e|d] eqn:R.
    { rewrite (submit_statement_error fl w V C X U R) in H.
      now contradiction H. }
    destruct (commit_fault fl) as [e|] eqn:K.
    { rewrite (submit_commit_fault fl w V C X U R K) in H.
      now contradiction H. }
    rewrite (submit_committed fl w V C X U R K). cbn [fst snd db_file].
    repeat (split; [reflexivity|]).
    apply insert_customer_rows in R as (r & Hr & _). now exists r.
  - exfalso. apply H.
    destruct (submit_data_path fl w) as [ev _ _|e V' _|e V' _|s V' _ _|d V' _ _];
      try congruence.
    reflexivity.
Qed.

Lemma file_changes_only_on_success_witness :
  fst (call (submit_data no_faults) (with_form jane_form fresh_world))
  = Return tt.
Proof.
  assert (db_file (snd (call (submit_data no_faults)
                          (with_form jane_form fresh_world)))
          <> db_file (with_form jane_form fresh_world)) as H
    by (vm_compute; discriminate).
  exact (proj1 (proj2 (proj2 (proj2 (proj2
           (file_changes_only_on_success no_faults
              (with_form jane_form fresh_world) H)))))).
Defined.

(** A second click right after a submission that stored its row stores
    nothing: the form was cleared, so the click is answered with "Name and
    Email are required fields." and the file stays as the first click left
    it. *)
Theorem second_click_stores_nothing (fl fl2 : Faults) (w : World) (r : row) :
  let w1 := snd (call (submit_data fl) w) in
  customers_rows (db_file w1) = customers_rows (db_file w) ++ [r] ->
  call (submit_data fl2) w1 = (Return tt, add_events w1 [required_warning]).
Proof.
  cbv zeta.
  destruct (submit_data_path fl w) as [ev V _|e V _|e V _|s V _ _|d V _ R];
    cbn [snd add_events db_file]; intros H;
    try (now apply app_one_neq in H).
  now apply submit_required.
Qed.

Lemma second_click_stores_nothing_witness :
  customers_rows
    (db_file (run [Submit no_faults; Submit no_faults]
                (with_form jane_form fresh_world)))
  = [{| row_id := 1; row_cells := jane_cells |}].
Proof.
  pose proof (second_click_stores_nothing no_faults no_faults
                (with_form jane_form fresh_world)
                {| row_id := 1; row_cells := jane_cells |} eq_refl) as H.
  cbn [run fold_left step]. rewrite H. reflexivity.
Defined.

(** [submit_data] reads the form and the file, not what happened before. *)
Lemma submit_data_same (fl : Faults) (w w2 : World) :
  form w2 = form w -> db_file w2 = db_file w ->
  fst (call (submit_data fl) w2) = fst (call (submit_data fl) w)
  /\ form (snd (call (submit_data fl) w2)) = form (snd (call (submit_data fl) w))
  /\ db_file (snd (call (submit_data fl) w2))
     = db_file (snd (call (submit_data fl) w)).
Proof.
  intros Ef Ed.
  destruct (@submit_data_cong fl w w2) as (r & keep & d & new & E1 & E2);
    [now rewrite Ef | exact Ed |].
  rewrite E1, E2. cbn [fst snd form db_file]. rewrite Ef. auto.
Qed.

(** A submission that stored nothing (stopped by validation, or failed at
    the store) left the form and the file as they were, so the next click
    goes as if the first had not been made: same result, same form and
    same file afterwards.  The user can retry without typing again. *)
Theorem retry_after_nothing_stored (fl fl2 : Faults) (w : World) :
  let w1 := snd (call (submit_data fl) w) in
  customers_rows (db_file w1) = customers_rows (db_file w) ->
  form w1 = form w
  /\ db_file w1 = db_file w
  /\ fst (call (submit_data fl2) w1) = fst (call (submit_data fl2) w)
  /\ form (snd (call (submit_data fl2) w1))
     = form (snd (call (submit_data fl2) w))
  /\ db_file (snd (call (submit_data fl2) w1))
     = db_file (snd (call (submit_data fl2) w)).
Proof.
  cbv zeta. intros H.
  assert (form (snd (call (submit_data fl) w)) = form w
          /\ db_file (snd (call (submit_data fl) w)) = db_file w) as [Ef Ed].
  { destruct (submit_data_path fl w) as [ev V _|e V _|e V _|s V _ _|d V _ R];
      cbn [snd add_events form db_file] in *; auto.
    apply insert_customer_rows in R as (r & Hr & _).
    rewrite Hr in H. symmetry in H. now apply app_one_neq in H. }
  split; [exact Ef|]. split; [exact Ed|].
  now apply submit_data_same.
Qed.

Lemma retry_after_nothing_stored_witness :
  let flaky := {| connect_fault := None; execute_fault := None;
                  commit_fault := Some (py "disk I/O error") |} in
  customers_rows
    (db_file (run [Submit flaky; Submit no_faults]
                (with_form jane_form fresh_world)))
  = [{| row_id := 1; row_cells := jane_cells |}].
Proof.
  intros flaky.
  destruct (retry_after_nothing_stored flaky no_faults
              (with_form jane_form fresh_world) eq_refl)
    as (_ & _ & _ & _ & H).
  cbn [run fold_left step]. rewrite H. reflexivity.
Defined.

(** ** Sessions *)

Lemma step_edit_file (w : World) (a : action) :
  is_submit a = false -> db_file (step w a) = db_file w.
Proof. destruct a; [reflexivity | reflexivity | discriminate]. Qed.

(** Typing and selecting never touch the file, and a click adds at most
    one row and takes none away: after any sequence of actions the table
    holds the rows it had, unchanged and in their order, followed by at
    most one new row per click on Submit; without a click the file is
    what it was. *)
Theorem rows_bounded_by_clicks (acts : list action) :
  forall w,
    (exists new,
        customers_rows (db_file (run acts w))
        = customers_rows (db_file w) ++ new
        /\ List.length new <= clicks acts)
    /\ (clicks acts = 0 -> db_file (run acts w) = db_file w).
Proof.
  unfold clicks.
  induction acts as [|a acts IH]; intros w; cbn [run fold_left filter].
  - split; [|reflexivity]. exists []. now rewrite app_nil_r.
  - fold (run acts (step w a)).
    destruct (IH (step w a)) as [(new & Hr & Hl) Hz].
    destruct (step_inserts w a) as [_ [E | (r & E & _)]].
    + rewrite E in Hr. split.
      * exists new. split; [exact Hr|].
        destruct (is_submit a); cbn [List.length]; lia.
      * destruct (is_submit a) eqn:S; cbn [List.length]; [discriminate|].
        intros Z. rewrite (Hz Z). now apply step_edit_file.
    + rewrite E, <- app_assoc in Hr.
      assert (is_submit a = true) as S.
      { destruct (is_submit a) eqn:S; [reflexivity|].
        pose proof (step_edit_file w a S) as Ed. rewrite Ed in E.
        now apply app_one_neq in E. }
      rewrite S. cbn [List.length]. split; [|discriminate].
      exists (r :: new). split; [exact Hr|]. cbn [List.length]. lia.
Qed.

Lemma insert_row_id t cols ps r :
  insert_row t cols ps = inr r ->
  (max_rowid (tbl_rows t) < row_id r)%Z.
Proof.
  unfold insert_row.
  destruct (negb _); [discriminate|].
  destruct (unknown_column t cols); [discriminate|].
  destruct (bound (tbl_rowid t) cols ps) as [[?|]|];
    try discriminate;
    (destruct (null_violation t _); [discriminate|]);
    (destruct (Z.leb _ _); [discriminate|]);
    intros H; injection H as <-; cbn; lia.
Qed.

Lemma increasing_snoc (ids : list Z) (i : Z) :
  increasing ids -> Forall (fun j => (j < i)%Z) ids -> increasing (ids ++ [i]).
Proof.
  induction ids as [|x ids IH]; cbn; intros H F.
  - auto.
  - destruct H as [Hx Hi]. inversion F as [|? ? Fx Fi]; subst. split.
    + apply Forall_app. split; [exact Hx | now constructor].
    + now apply IH.
Qed.

Lemma increasing_NoDup (ids : list Z) : increasing ids -> NoDup ids.
Proof.
  induction ids as [|x ids IH]; cbn; intros H; constructor.
  - destruct H as [Hx _]. intros Hin.
    rewrite Forall_forall in Hx. apply Hx in Hin. lia.
  - apply IH, H.
Qed.

Lemma step_increasing (w : World) (a : action) :
  increasing (row_ids (db_file w)) -> increasing (row_ids (db_file (step w a))).
Proof.
  intros H. destruct a as [f text|i|fl]; cbn [step]; auto.
  destruct (submit_data_path fl w) as [ev V _|e V _|e V _|s V _ _|d V _ R];
    cbn; auto.
  apply insert_customer_ok in R as (t & r & F & I & ->).
  unfold row_ids, customers_rows in *.
  rewrite (@find_store_table _ _ _ (add_row t r) F eq_refl). rewrite F in H.
  cbn [add_row tbl_rows]. rewrite map_app. apply increasing_snoc; [exact H|].
  apply Forall_forall. intros j Hj. apply in_map_iff in Hj as (old & <- & Hin).
  apply max_rowid_bound in Hin. apply insert_row_id in I. lia.
Qed.

(** The ids of the rows grow with the order of insertion and never
    repeat: when they do so in the table as it is, they still do after
    any sequence of actions. *)
Theorem ids_stay_increasing (acts : list action) :
  forall w,
    increasing (row_ids (db_file w)) ->
    increasing (row_ids (db_file (run acts w)))
    /\ NoDup (row_ids (db_file (run acts w))).
Proof.
  induction acts as [|a acts IH]; intros w H; cbn [run fold_left].
  - split; [exact H | now apply increasing_NoDup].
  - apply IH, step_increasing, H.
Qed.

Lemma ids_stay_increasing_witness :
  row_ids (db_file (run [Submit no_faults; Typing name_field (py "Ann");
                         Typing email_field (py "ann@example.org");
                         Submit no_faults]
                     (with_form jane_form fresh_world)))
  = [1%Z; 2%Z]
  /\ NoDup [1%Z; 2%Z].
Proof.
  split; [reflexivity|].
  exact (proj2 (ids_stay_increasing
                  [Submit no_faults; Typing name_field (py "Ann");
                   Typing email_field (py "ann@example.org");
                   Submit no_faults]
                  (with_form jane_form fresh_world) Logic.I)).
Defined.

Lemma same_name_sym (a b : string) : same_name a b = same_name b a.
Proof. unfold same_name. apply String.eqb_sym. Qed.

Lemma find_store_table_other (n : string) (t' : table) (db : database) :
  same_name (tbl_name t') n = false ->
  find_table n (store_table t' db) = find_table n db.
Proof.
  intros N. unfold find_table, store_table.
  induction db as [|x db IH]; cbn [map find]; [reflexivity|].
  destruct (same_name (tbl_name x) (tbl_name t')) eqn:E.
  - rewrite N, (same_name_left _ _ n E), N. exact IH.
  - destruct (same_name (tbl_name x) n); [reflexivity | exact IH].
Qed.

Lemma find_app_other (n : string) (t' : table) (db : database) :
  same_name (tbl_name t') n = false ->
  find_table n (db ++ [t']) = find_table n db.
Proof.
  intros N. unfold find_table.
  induction db as [|x db IH]; cbn [app find].
  - now rewrite N.
  - destruct (same_name (tbl_name x) n); [reflexivity | exact IH].
Qed.

Lemma step_other_tables (w : World) (a : action) (n : string) :
  same_name n "customers" = false ->
  find_table n (db_file (step w a)) = find_table n (db_file w).
Proof.
  intros N. destruct a as [f text|i|fl]; cbn [step]; auto.
  destruct (submit_data_path fl w) as [ev V _|e V _|e V _|s V _ _|d V _ R];
    cbn; auto.
  apply insert_customer_ok in R as (t & r & F & _ & ->).
  apply find_store_table_other. cbn [add_row tbl_name].
  rewrite (same_name_left _ _ n (find_table_name _ _ F)).
  now rewrite same_name_sym.
Qed.

(** The program keeps to its own table, in a file of plain tables (the
    tables of [database]: no triggers, views or foreign keys).  Take a
    name that is not the name of the [customers] table in any spelling of
    upper and lower case and that is not one of SQLite's own names (those
    that begin with [sqlite_], such as [sqlite_master] and
    [sqlite_sequence], which SQLite itself writes when a table is created
    or a row gets its id): the table the file holds under that name is
    found unchanged after [setup_database], with or without faults, and
    after any sequence of actions. *)
Theorem other_tables_untouched (n : string) :
  same_name n "customers" = false ->
  internal_name n = false ->
  (forall fl w,
      find_table n (db_file (snd (call (setup_database fl) w)))
      = find_table n (db_file w))
  /\ (forall acts w,
         find_table n (db_file (run acts w)) = find_table n (db_file w)).
Proof.
  intros N _. split.
  - intros fl w. destruct (setup_database_file fl w) as [-> | H];
      [reflexivity|].
    rewrite create_customers_run in H. injection H as <-.
    destruct (find_table "customers" (db_file w)); [reflexivity|].
    apply find_app_other. cbn [new_customers tbl_name].
    now rewrite same_name_sym.
  - intros acts. induction acts as [|a acts IH]; intros w; cbn [run fold_left].
    + reflexivity.
    + fold (run acts (step w a)). rewrite IH. now apply step_other_tables.
Qed.

Lemma other_tables_untouched_witness :
  let orders := {| tbl_name := "Orders"; tbl_rowid := "id";
                   tbl_columns := []; tbl_rows := []; tbl_seq := 0 |} in
  let w := {| form := jane_form; db_file := [orders]; events := [] |} in
  find_table "orders"
    (db_file (run [Submit no_faults]
                (snd (call (setup_database no_faults) w))))
  = Some orders.
Proof.
  intros orders w.
  destruct (@other_tables_untouched "orders" eq_refl eq_refl) as [H1 H2].
  rewrite H2, H1. reflexivity.
Defined.

Lemma step_keeps_table (w : World) (a : action) (t : table) :
  find_table "customers" (db_file w) = Some t ->
  exists t',
    find_table "customers" (db_file (step w a)) = Some t'
    /\ tbl_columns t' = tbl_columns t /\ tbl_rowid t' = tbl_rowid t.
Proof.
  intros F. destruct a as [f text|i|fl]; cbn [step]; eauto.
  destruct (submit_data_path fl w) as [ev V _|e V _|e V _|s V _ _|d V _ R];
    cbn; eauto.
  apply insert_customer_ok in R as (t0 & r & F0 & _ & ->).
  rewrite F in F0. injection F0 as <-.
  exists (add_row t r). split; [|split; reflexivity].
  exact (@find_store_table _ _ _ (add_row t r) F eq_refl).
Qed.

(** Once the table is in the file no action removes it or changes its
    columns: whatever the user does after a start that came up, every
    later submission finds the [customers] table, with the columns it
    had. *)
Theorem table_kept (acts : list action) :
  forall w t,
    find_table "customers" (db_file w) = Some t ->
    exists t',
      find_table "customers" (db_file (run acts w)) = Some t'
      /\ tbl_columns t' = tbl_columns t /\ tbl_rowid t' = tbl_rowid t.
Proof.
  induction acts as [|a acts IH]; intros w t F; cbn [run fold_left].
  - eauto.
  - destruct (step_keeps_table w a F) as (t1 & F1 & Hc & Hr).
    destruct (IH (step w a) t1 F1) as (t' & F' & Hc' & Hr').
    exists t'. split; [exact F'|]. split; congruence.
Qed.

Lemma table_kept_witness :
  exists t',
    find_table "customers"
      (db_file (run [Submit no_faults; Submit cannot_open]
                  (with_form jane_form fresh_world))) = Some t'
    /\ tbl_columns t' = customers_columns /\ tbl_rowid t' = "id".
Proof.
  exact (table_kept [Submit no_faults; Submit cannot_open]
           (with_form jane_form fresh_world) (t := new_customers) eq_refl).
Defined.

(** ** What an accepted address looks like *)






